(** * The pg client tweaks of the serverless driver: SCRAM-SHA-256 step,
      connection pipelining, HTTP result shaping

    Source files embedded here:
    - [src/export/index.ts]: [NeonClient.connect] and
      [NeonClient._handleAuthSASLContinue];
    - [src/dist/dts/shims/net/index.d.ts]: the configuration surface
      ([pipelineConnect], [pipelineTLS]) and the result types of the HTTP
      query function;
    - [src/src/util.ts]: the timing helpers [timed], [timedRepeats],
      [runQuery], [clientRunQuery] and [poolRunQuery].

    Conventions.  A JavaScript string is the list of its UTF-16 code units
    ([N]); a byte buffer ([Uint8Array], [Buffer], [ArrayBuffer]) is a list of
    [Byte.byte]; a JavaScript number that holds a count is an [N] (numbers are
    doubles, exact on integers up to 2^53, the range a count of HMAC rounds
    lives in).  An [async] method is embedded run-to-completion: the awaits
    of one call are not interleaved with other calls. *)

From Stdlib Require Import NArith List Bool Lia.
From Stdlib.Strings Require Import String Ascii Byte.
From stdpp Require Import base option list strings gmap.

Local Open Scope N_scope.

(** ** JavaScript strings and the built-ins the client calls *)

Module JS.

Abbreviation codeunit := N (only parsing).
Abbreviation jsstring := (list N) (only parsing).
Abbreviation bytes := (list byte) (only parsing).

(** A string literal of the source, as code units. *)
Fixpoint lit (s : string) : jsstring :=
  match s with
  | EmptyString => []
  | String a r => N_of_ascii a :: lit r
  end.

Definition chr (a : ascii) : codeunit := N_of_ascii a.

(** [lo <= c <= hi], a character class range [[lo-hi]]. *)
Definition in_range (lo hi : ascii) (c : codeunit) : bool :=
  (chr lo <=? c) && (c <=? chr hi).

(** Equality of strings ([===] on two strings). *)
Definition str_eqb (a b : jsstring) : bool := bool_decide (a = b).

(** [s.split(sep)] for a one-character separator: never empty, [''] for the
    empty string. *)
Fixpoint split (sep : codeunit) (s : jsstring) : list jsstring :=
  match s with
  | [] => [[]]
  | c :: r =>
      if c =? sep then [] :: split sep r
      else match split sep r with
           | p :: ps => (c :: p) :: ps
           | [] => [[c]]
           end
  end.

(** [s.substring(n)]. *)
Definition substring_from (n : nat) (s : jsstring) : jsstring := drop n s.

(** [s.startsWith(p)]. *)
Fixpoint startsWith (s p : jsstring) {struct p} : bool :=
  match p, s with
  | [], _ => true
  | a :: p', b :: s' => (a =? b) && startsWith s' p'
  | _ :: _, [] => false
  end.

(** The line terminators, which the regular expression [.] does not match. *)
Definition is_line_terminator (c : codeunit) : bool :=
  (c =? 10) || (c =? 13) || (c =? 8232) || (c =? 8233).

Definition is_digit (c : codeunit) : bool := in_range "0" "9" c.

Definition digit_value (c : codeunit) : N := c - chr "0".

(** [parseInt(s, 10)] on a string of decimal digits, the only strings the
    client passes (the text has matched [/^[1-9][0-9]*$/] before): the digits
    read left to right in base ten.  White space, sign and [NaN] do not arise
    on such text; the value of the leading run of digits is what [parseInt]
    returns.  The value is the exact integer: a JavaScript number holds it
    exactly up to 2^53, and a count of HMAC rounds beyond that is outside
    this embedding. *)
Fixpoint parseInt10_from (acc : N) (s : jsstring) : N :=
  match s with
  | c :: r => if is_digit c then parseInt10_from (10 * acc + digit_value c) r else acc
  | [] => acc
  end.

Definition parseInt10 (s : jsstring) : N := parseInt10_from 0 s.

(** [String(n)] for a non-negative integer in the exact range (what
    ['...' + n] appends): its decimal digits, most significant first, no sign
    and no leading zero.  [fuel] bounds the number of digits. *)
Fixpoint digits_fuel (fuel : nat) (n : N) (acc : jsstring) : jsstring :=
  match fuel with
  | O => acc
  | S f =>
      let acc' := (chr "0" + n mod 10) :: acc in
      if n <? 10 then acc' else digits_fuel f (n / 10) acc'
  end.

Definition number_to_string (n : N) : jsstring :=
  digits_fuel (S (N.to_nat (N.log2 n))) n [].

(** *** [TextEncoder.encode]: UTF-8 of a UTF-16 string *)

Definition byte_of_N (n : N) : byte :=
  match Byte.of_N (n mod 256) with
  | Some b => b
  | None => x00
  end.

Definition is_high_surrogate (c : codeunit) : bool := (55296 <=? c) && (c <=? 56319).
Definition is_low_surrogate (c : codeunit) : bool := (56320 <=? c) && (c <=? 57343).

(** The UTF-8 bytes of one scalar value. *)
Definition utf8_of_scalar (cp : N) : bytes :=
  if cp <? 128 then [byte_of_N cp]
  else if cp <? 2048 then
    [byte_of_N (192 + cp / 64); byte_of_N (128 + cp mod 64)]
  else if cp <? 65536 then
    [byte_of_N (224 + cp / 4096); byte_of_N (128 + (cp / 64) mod 64);
     byte_of_N (128 + cp mod 64)]
  else
    [byte_of_N (240 + cp / 262144); byte_of_N (128 + (cp / 4096) mod 64);
     byte_of_N (128 + (cp / 64) mod 64); byte_of_N (128 + cp mod 64)].

Definition replacement_character : N := 65533.

(** [new TextEncoder().encode(s)]: surrogate pairs are combined, a lone
    surrogate is encoded as U+FFFD. *)
Fixpoint utf8_encode (s : jsstring) : bytes :=
  match s with
  | [] => []
  | c :: r =>
      if is_high_surrogate c then
        match r with
        | d :: r' =>
            if is_low_surrogate d
            then utf8_of_scalar (65536 + (c - 55296) * 1024 + (d - 56320)) ++ utf8_encode r'
            else utf8_of_scalar replacement_character ++ utf8_encode r
        | [] => utf8_of_scalar replacement_character
        end
      else if is_low_surrogate c then utf8_of_scalar replacement_character ++ utf8_encode r
      else utf8_of_scalar c ++ utf8_encode r
  end.

(** *** [Buffer] and base64 *)

(** The base64 alphabet [[a-zA-Z0-9+/]] of the salt's regular expression. *)
Definition is_b64 (c : codeunit) : bool :=
  in_range "a" "z" c || in_range "A" "Z" c || in_range "0" "9" c
  || (c =? chr "+") || (c =? chr "/").

(** The six bits a base64 character stands for. *)
Definition b64_value (c : codeunit) : option N :=
  if in_range "A" "Z" c then Some (c - chr "A")
  else if in_range "a" "z" c then Some (c - chr "a" + 26)
  else if in_range "0" "9" c then Some (c - chr "0" + 52)
  else if c =? chr "+" then Some 62
  else if c =? chr "/" then Some 63
  else None.

Definition b64_char (v : N) : codeunit :=
  if v <? 26 then chr "A" + v
  else if v <? 52 then chr "a" + (v - 26)
  else if v <? 62 then chr "0" + (v - 52)
  else if v =? 62 then chr "+"
  else chr "/".

(** Bytes of a run of six-bit values: three bytes per four values, and one or
    two bytes for a last group of two or three values. *)
Fixpoint bytes_of_sextets (v : list N) : bytes :=
  match v with
  | a :: b :: c :: d :: r =>
      byte_of_N (a * 4 + b / 16) :: byte_of_N (b mod 16 * 16 + c / 4)
      :: byte_of_N (c mod 4 * 64 + d) :: bytes_of_sextets r
  | [a; b; c] => [byte_of_N (a * 4 + b / 16); byte_of_N (b mod 16 * 16 + c / 4)]
  | [a; b] => [byte_of_N (a * 4 + b / 16)]
  | _ => []
  end.

(** [Buffer.from(s, 'base64')]: the characters up to the first [=] are
    decoded, characters outside the alphabet are skipped.  On a string that
    matched the salt's regular expression this is the standard decoding. *)
Fixpoint before_padding (s : jsstring) : jsstring :=
  match s with
  | c :: r => if c =? chr "=" then [] else c :: before_padding r
  | [] => []
  end.

Definition buffer_from_base64 (s : jsstring) : bytes :=
  bytes_of_sextets (omap b64_value (before_padding s)).

(** [buf.toString('base64')]: the standard encoding with [=] padding. *)
Fixpoint buffer_to_base64 (b : bytes) : jsstring :=
  match b with
  | x :: y :: z :: r =>
      let x := Byte.to_N x in let y := Byte.to_N y in let z := Byte.to_N z in
      b64_char (x / 4) :: b64_char (x mod 4 * 16 + y / 16)
      :: b64_char (y mod 16 * 4 + z / 64) :: b64_char (z mod 64) :: buffer_to_base64 r
  | [x; y] =>
      let x := Byte.to_N x in let y := Byte.to_N y in
      [b64_char (x / 4); b64_char (x mod 4 * 16 + y / 16); b64_char (y mod 16 * 4); chr "="]
  | [x] =>
      let x := Byte.to_N x in
      [b64_char (x / 4); b64_char (x mod 4 * 16); chr "="; chr "="]
  | [] => []
  end.

(** [a.map((_, i) => a[i] ^ b[i])] on two byte arrays: the result has the
    length of [a]; where [b] is shorter [b[i]] is [undefined] and the XOR
    leaves [a[i]] as it is. *)
Definition byte_xor (x y : byte) : byte :=
  byte_of_N (N.lxor (Byte.to_N x) (Byte.to_N y)).

Definition xor_at (b : bytes) (i : nat) (x : byte) : byte :=
  match b !! i with
  | Some y => byte_xor x y
  | None => x
  end.

Definition map_xor (a b : bytes) : bytes := imap (xor_at b) a.

End JS.

(** ** The cryptographic provider: [crypto.subtle] with SHA-256 and HMAC

    The client calls [importKey], [sign] and [digest] of the platform's
    SubtleCrypto.  They are written out here (FIPS 180-4 and RFC 2104) so that
    the client's computation can be evaluated; the proofs below use of them
    only that an HMAC-SHA-256 tag and a SHA-256 digest are 32 bytes long. *)

Module Subtle.
Import JS.

(** 32-bit words, as numbers below 2^32. *)
Definition w32 (x : N) : N := x mod 4294967296.
Definition add32 (x y : N) : N := w32 (x + y).
Definition rotr (n x : N) : N := N.lor (N.shiftr x n) (w32 (N.shiftl x (32 - n))).
Definition not32 (x : N) : N := N.lxor x 4294967295.

Definition Ch (x y z : N) : N := N.lxor (N.land x y) (N.land (not32 x) z).
Definition Maj (x y z : N) : N :=
  N.lxor (N.lxor (N.land x y) (N.land x z)) (N.land y z).
Definition Sigma0 (x : N) : N := N.lxor (N.lxor (rotr 2 x) (rotr 13 x)) (rotr 22 x).
Definition Sigma1 (x : N) : N := N.lxor (N.lxor (rotr 6 x) (rotr 11 x)) (rotr 25 x).
Definition sigma0 (x : N) : N := N.lxor (N.lxor (rotr 7 x) (rotr 18 x)) (N.shiftr x 3).
Definition sigma1 (x : N) : N := N.lxor (N.lxor (rotr 17 x) (rotr 19 x)) (N.shiftr x 10).

(** The constants of FIPS 180-4 are read off the first primes: the first 32
    bits of the fractional part of the cube root (round constants) and of the
    square root (initial hash value). *)
Definition is_prime (n : N) : bool :=
  (2 <=? n) && forallb (fun d => negb (n mod (N.of_nat d) =? 0)) (seq 2 (N.to_nat n - 2)).

Definition first_primes (count : nat) (below : nat) : list N :=
  take count (filter (fun n => is_prime n = true) (map N.of_nat (seq 2 below))).

(** The largest [r] below [2 ^ bits] above the start value with [r ^ 3 <= n],
    by bisection. *)
Fixpoint cube_root_bits (n : N) (bits : nat) (r : N) : N :=
  match bits with
  | O => r
  | S b =>
      let r' := r + 2 ^ N.of_nat b in
      if r' * r' * r' <=? n then cube_root_bits n b r' else cube_root_bits n b r
  end.

Definition cube_root_fraction (p : N) : N :=
  w32 (cube_root_bits (p * 2 ^ 96) 36 0).

Definition square_root_fraction (p : N) : N :=
  w32 (N.sqrt (p * 2 ^ 64)).

Definition K256 : list N :=
  Eval vm_compute in map cube_root_fraction (first_primes 64 312).

Record hash_state := HashState { ha : N; hb : N; hc : N; hd : N; he : N; hf : N; hg : N; hh : N }.

Definition H256 : hash_state :=
  Eval vm_compute in
    match map square_root_fraction (first_primes 8 20) with
    | [a; b; c; d; e; f; g; h] => HashState a b c d e f g h
    | _ => HashState 0 0 0 0 0 0 0 0
    end.

(** The message schedule, most recent word first. *)
Fixpoint schedule (n : nat) (rev_w : list N) : list N :=
  match n with
  | O => rev_w
  | S n' =>
      let w := add32 (add32 (sigma1 (nth 1 rev_w 0)) (nth 6 rev_w 0))
                     (add32 (sigma0 (nth 14 rev_w 0)) (nth 15 rev_w 0)) in
      schedule n' (w :: rev_w)
  end.

Definition round (s : hash_state) (kw : N * N) : hash_state :=
  let t1 := add32 (add32 (add32 (hh s) (Sigma1 (he s))) (Ch (he s) (hf s) (hg s)))
                  (add32 (fst kw) (snd kw)) in
  let t2 := add32 (Sigma0 (ha s)) (Maj (ha s) (hb s) (hc s)) in
  HashState (add32 t1 t2) (ha s) (hb s) (hc s) (add32 (hd s) t1) (he s) (hf s) (hg s).

Definition compress (s : hash_state) (block : list N) : hash_state :=
  let w := rev (schedule 48 (rev block)) in
  let t := fold_left round (combine K256 w) s in
  HashState (add32 (ha s) (ha t)) (add32 (hb s) (hb t)) (add32 (hc s) (hc t))
            (add32 (hd s) (hd t)) (add32 (he s) (he t)) (add32 (hf s) (hf t))
            (add32 (hg s) (hg t)) (add32 (hh s) (hh t)).

Fixpoint words_of_bytes (b : bytes) : list N :=
  match b with
  | x :: y :: z :: t :: r =>
      (((Byte.to_N x * 256 + Byte.to_N y) * 256 + Byte.to_N z) * 256 + Byte.to_N t)
      :: words_of_bytes r
  | _ => []
  end.

Definition bytes_of_word (w : N) : bytes :=
  [byte_of_N (w / 16777216); byte_of_N (w / 65536); byte_of_N (w / 256); byte_of_N w].

Definition bytes_of_state (s : hash_state) : bytes :=
  bytes_of_word (ha s) ++ bytes_of_word (hb s) ++ bytes_of_word (hc s)
  ++ bytes_of_word (hd s) ++ bytes_of_word (he s) ++ bytes_of_word (hf s)
  ++ bytes_of_word (hg s) ++ bytes_of_word (hh s).

(** Padding: a one bit, zeros up to 56 modulo 64, the bit length on 8 bytes. *)
Definition pad (m : bytes) : bytes :=
  let len := N.of_nat (length m) in
  let zeros := N.to_nat ((119 - len mod 64) mod 64) in
  m ++ [x80] ++ replicate zeros x00
    ++ bytes_of_word ((len * 8) / 4294967296) ++ bytes_of_word (len * 8).

Fixpoint process (fuel : nat) (ws : list N) (s : hash_state) : hash_state :=
  match fuel, ws with
  | S f, _ :: _ => process f (drop 16 ws) (compress s (take 16 ws))
  | _, _ => s
  end.

Definition sha256 (m : bytes) : bytes :=
  let ws := words_of_bytes (pad m) in
  bytes_of_state (process (length ws) ws H256).

(** RFC 2104 with SHA-256 (block size 64). *)
Definition hmac_sha256 (key m : bytes) : bytes :=
  let k0 := if Nat.ltb 64 (length key) then sha256 key else key in
  let k := k0 ++ replicate (64 - length k0)%nat x00 in
  sha256 (map (byte_xor x5c) k ++ sha256 (map (byte_xor x36) k ++ m)).

(** A [CryptoKey] for HMAC: the raw key it was imported from. *)
Record CryptoKey := { raw_key : bytes }.

(** A [DOMException] of the provider. *)
Inductive DOMException := DataError.

(** [crypto.subtle.importKey('raw', data, {name: 'HMAC', hash: {name:
    'SHA-256'}}, false, ['sign'])]: a key of length zero is refused with a
    [DataError]. *)
Definition importKey (data : bytes) : DOMException + CryptoKey :=
  match data with
  | [] => inl DataError
  | _ => inr {| raw_key := data |}
  end.

(** [crypto.subtle.sign('HMAC', key, data)]. *)
Definition sign (key : CryptoKey) (data : bytes) : bytes :=
  hmac_sha256 (raw_key key) data.

(** [crypto.subtle.digest('SHA-256', data)]. *)
Definition digest (data : bytes) : bytes := sha256 data.

End Subtle.

(** ** [NeonClient._handleAuthSASLContinue] (src/export/index.ts, 90-153) *)

Module Scram.
Import JS Subtle.

(** The values [this.password] and [msg.data] may hold; the method only asks
    whether [typeof] is ['string']. *)
Inductive value :=
| VUndefined
| VNull
| VBoolean (b : bool)
| VNumber (n : N)
| VString (s : jsstring)
| VObject.

(** [session.message]. *)
Inductive MessageTag := SASLInitialResponse | SASLResponse.

(** [this.saslSession]; [serverSignature] is [undefined] until the step has
    run. *)
Record Session := {
  message : MessageTag;
  clientNonce : jsstring;
  serverSignature : option jsstring;
  response : jsstring
}.

(** The errors the method can end with, by the message of the [Error]; the
    last one is a rejection by the provider. *)
Inductive Error :=
| ProtocolError
| InvalidAttributePair
| NonceMissingOrUnprintable
| SaltMissingOrNotBase64
| IterationCountMissingOrInvalid
| NonceWithoutClientNonce
| NonceTooShort
| ProviderError (e : DOMException).

Definition error_message (e : Error) : string :=
  match e with
  | ProtocolError => "SASL: protocol error"
  | InvalidAttributePair => "SASL: Invalid attribute pair entry"
  | NonceMissingOrUnprintable => "SASL: SCRAM-SERVER-FIRST-MESSAGE: nonce missing/unprintable"
  | SaltMissingOrNotBase64 => "SASL: SCRAM-SERVER-FIRST-MESSAGE: salt missing/not base64"
  | IterationCountMissingOrInvalid =>
      "SASL: SCRAM-SERVER-FIRST-MESSAGE: missing/invalid iteration count"
  | NonceWithoutClientNonce =>
      "SASL: SCRAM-SERVER-FIRST-MESSAGE: server nonce does not start with client nonce"
  | NonceTooShort => "SASL: SCRAM-SERVER-FIRST-MESSAGE: server nonce is too short"
  | ProviderError DataError => "DataError"
  end.

(** A call of the provider, as it was made. *)
Inductive SubtleCall :=
| CallImportKey (data : bytes)
| CallSign (key : CryptoKey) (data : bytes)
| CallDigest (data : bytes).

(** What the method reads and writes: the client's password and SASL
    session, the messages handed to
    [connection.sendSCRAMClientFinalMessage], and the calls made to
    [crypto.subtle], both oldest first. *)
Record Client := {
  password : value;
  saslSession : Session;
  sent : list jsstring;
  subtle_calls : list SubtleCall
}.

(** State and exceptions: a computation ends with a value or with a thrown
    error, and with the client as it has left it. *)
Definition M (A : Type) : Type := Client -> (Error + A) * Client.

#[global] Instance M_ret : MRet M := fun A a c => (inr a, c).
#[global] Instance M_bind : MBind M := fun A B k m c =>
  match m c with
  | (inr a, c') => k a c'
  | (inl e, c') => (inl e, c')
  end.

Definition throw {A} (e : Error) : M A := fun c => (inl e, c).
Definition get_client : M Client := fun c => (inr c, c).
Definition set_session (s : Session) : M unit := fun c =>
  (inr tt, {| password := password c; saslSession := s; sent := sent c;
              subtle_calls := subtle_calls c |}).
Definition sendSCRAMClientFinalMessage (m : jsstring) : M unit := fun c =>
  (inr tt, {| password := password c; saslSession := saslSession c;
              sent := sent c ++ [m]; subtle_calls := subtle_calls c |}).
Definition called (calls : list SubtleCall) (c : Client) : Client :=
  {| password := password c; saslSession := saslSession c; sent := sent c;
     subtle_calls := subtle_calls c ++ calls |}.

Definition subtle_importKey (data : bytes) : M CryptoKey := fun c =>
  match importKey data with
  | inr k => (inr k, called [CallImportKey data] c)
  | inl e => (inl (ProviderError e), called [CallImportKey data] c)
  end.
Definition subtle_sign (key : CryptoKey) (data : bytes) : M bytes := fun c =>
  (inr (sign key data), called [CallSign key data] c).
Definition subtle_digest (data : bytes) : M bytes := fun c =>
  (inr (digest data), called [CallDigest data] c).

(** *** The regular expressions of the method *)

(** [/^.=/]: any character but a line terminator, then [=]. *)
Definition test_attr (s : jsstring) : bool :=
  match s with
  | c :: e :: _ => negb (is_line_terminator c) && (e =? chr "=")
  | _ => false
  end.

(** [/^[!-+--~]+$/]. *)
Definition nonce_char (c : codeunit) : bool := in_range "!" "+" c || in_range "-" "~" c.
Definition test_nonce (s : jsstring) : bool :=
  match s with
  | [] => false
  | _ => forallb nonce_char s
  end.

(** [/^(?:[a-zA-Z0-9+/]{4})*(?:[a-zA-Z0-9+/]{2}==|[a-zA-Z0-9+/]{3}=)?$/]. *)
Fixpoint test_base64 (s : jsstring) : bool :=
  match s with
  | [] => true
  | [a; b; c; d] =>
      is_b64 a && is_b64 b
      && ((is_b64 c && is_b64 d)
          || ((c =? chr "=") && (d =? chr "="))
          || (is_b64 c && (d =? chr "=")))
  | a :: b :: c :: d :: r => is_b64 a && is_b64 b && is_b64 c && is_b64 d && test_base64 r
  | _ => false
  end.

(** [/^[1-9][0-9]*$/]. *)
Definition test_iterations (s : jsstring) : bool :=
  match s with
  | c :: r => in_range "1" "9" c && forallb is_digit r
  | [] => false
  end.

(** *** Attribute pairs *)

(** The callback of [.map]: [[name, value]] of one [name=value] entry. *)
Definition attr_pair (attrValue : jsstring) : Error + (codeunit * jsstring) :=
  if negb (test_attr attrValue) then inl InvalidAttributePair
  else match attrValue with
       | name :: _ => inr (name, substring_from 2 attrValue)
       | [] => inl InvalidAttributePair
       end.

(** [entries.map(attr_pair)]: the first entry that throws ends the map. *)
Fixpoint attr_pairs (entries : list jsstring) : Error + list (codeunit * jsstring) :=
  match entries with
  | [] => inr []
  | e :: r =>
      match attr_pair e with
      | inl err => inl err
      | inr p =>
          match attr_pairs r with
          | inl err => inl err
          | inr ps => inr (p :: ps)
          end
      end
  end.

(** [Object.fromEntries]: the properties are defined in order, a later entry
    of the same name replaces the earlier one.  Names are single characters. *)
Definition fromEntries (ps : list (codeunit * jsstring)) : gmap N (list N) :=
  fold_left (fun o p => <[fst p := snd p]> o) ps ∅.

Definition parse_attrPairs (serverData : jsstring) : M (gmap N (list N)) :=
  match attr_pairs (split (chr ",") serverData) with
  | inl e => throw e
  | inr ps => mret (fromEntries ps)
  end.

(** [if (!v || !re.test(v)) throw e], after which [v] is a string: [v] is
    falsy when it is [undefined] or the empty string. *)
Definition required (v : option jsstring) (test : jsstring -> bool) (e : Error) : M jsstring :=
  match v with
  | Some ((_ :: _) as s) => if test s then mret s else throw e
  | _ => throw e
  end.

(** *** The derivation of the salted password (lines 121-127) *)

(** The body of the [for] loop, [n] times: [ui1] is the last HMAC output,
    [ui] the running XOR. *)
Fixpoint hi_loop (n : nat) (iterHmacKey : CryptoKey) (ui1 ui : bytes) : M bytes :=
  match n with
  | O => mret ui
  | S n' =>
      ui1' ← subtle_sign iterHmacKey ui1;
      hi_loop n' iterHmacKey ui1' (map_xor ui ui1')
  end.

Definition derive_saltedPassword (iterHmacKey : CryptoKey) (saltBytes : bytes) (iterations : N)
  : M bytes :=
  ui1 ← subtle_sign iterHmacKey (saltBytes ++ [x00; x00; x00; x01]);
  hi_loop (N.to_nat (iterations - 1)) iterHmacKey ui1 ui1.

(** *** The method *)

Definition handleAuthSASLContinue (msg_data : value) : M unit :=
  this ← get_client;
  let session := saslSession this in
  match message session, password this, msg_data with
  | SASLInitialResponse, VString password, VString serverData =>
      attrPairs ← parse_attrPairs serverData;
      nonce ← required (attrPairs !! chr "r") test_nonce NonceMissingOrUnprintable;
      salt ← required (attrPairs !! chr "s") test_base64 SaltMissingOrNotBase64;
      iterationText ← required (attrPairs !! chr "i") test_iterations
                        IterationCountMissingOrInvalid;
      if negb (startsWith nonce (clientNonce session)) then throw NonceWithoutClientNonce
      else if Nat.eqb (length nonce) (length (clientNonce session)) then throw NonceTooShort
      else
        let iterations := parseInt10 iterationText in
        let saltBytes := buffer_from_base64 salt in
        let passwordBytes := utf8_encode password in
        iterHmacKey ← subtle_importKey passwordBytes;
        saltedPassword ← derive_saltedPassword iterHmacKey saltBytes iterations;
        ckHmacKey ← subtle_importKey saltedPassword;
        clientKey ← subtle_sign ckHmacKey (utf8_encode (lit "Client Key"));
        storedKey ← subtle_digest clientKey;
        let clientFirstMessageBare := lit "n=*,r=" ++ clientNonce session in
        let serverFirstMessage :=
          lit "r=" ++ nonce ++ lit ",s=" ++ salt ++ lit ",i=" ++ number_to_string iterations in
        let clientFinalMessageWithoutProof := lit "c=biws,r=" ++ nonce in
        let authMessage :=
          clientFirstMessageBare ++ lit "," ++ serverFirstMessage ++ lit ","
          ++ clientFinalMessageWithoutProof in
        csHmacKey ← subtle_importKey storedKey;
        clientSignature ← subtle_sign csHmacKey (utf8_encode authMessage);
        let clientProofBytes := map_xor clientKey clientSignature in
        let clientProof := buffer_to_base64 clientProofBytes in
        skHmacKey ← subtle_importKey saltedPassword;
        serverKey ← subtle_sign skHmacKey (utf8_encode (lit "Server Key"));
        ssbHmacKey ← subtle_importKey serverKey;
        serverSignatureBytes ← subtle_sign ssbHmacKey (utf8_encode authMessage);
        set_session {| message := SASLResponse;
                       clientNonce := clientNonce session;
                       serverSignature := Some (buffer_to_base64 serverSignatureBytes);
                       response := clientFinalMessageWithoutProof ++ lit ",p=" ++ clientProof |};;
        this ← get_client;
        sendSCRAMClientFinalMessage (response (saslSession this))
  | _, _, _ => throw ProtocolError
  end.

End Scram.

(** ** The SCRAM-SHA-256 exchange as the specification words it

    These definitions follow the specification's algorithm (section 4.3) and
    its validation rules, not the code; the theorems below compare them with
    [Scram.handleAuthSASLContinue]. *)

Module ScramSpec.
Import JS Subtle.

Definition HMAC (key m : bytes) : bytes := hmac_sha256 key m.
Definition H (m : bytes) : bytes := sha256 m.

(** Bytewise XOR of two strings of bytes. *)
Definition xor_bytes (a b : bytes) : bytes := zip_with byte_xor a b.

(** The outputs of [n] successive rounds of HMAC keyed by [P]: the first on
    [input], each later one on the output of the round before. *)
Fixpoint rounds (P input : bytes) (n : nat) : list bytes :=
  match n with
  | O => []
  | S n' => let u := HMAC P input in u :: rounds P u n'
  end.

(** The running XOR of the outputs. *)
Definition xor_accumulate (us : list bytes) : bytes :=
  match us with
  | [] => []
  | u :: r => fold_left xor_bytes r u
  end.

(** [Hi(P, S, i)]: PBKDF2 with HMAC-SHA-256 and the single block
    [S || INT(1)]. *)
Definition Hi (P S : bytes) (i : nat) : bytes :=
  xor_accumulate (rounds P (S ++ [x00; x00; x00; x01]) i).

Definition clientKey (saltedPassword : bytes) : bytes :=
  HMAC saltedPassword (utf8_encode (lit "Client Key")).
Definition storedKey (saltedPassword : bytes) : bytes := H (clientKey saltedPassword).
Definition serverKey (saltedPassword : bytes) : bytes :=
  HMAC saltedPassword (utf8_encode (lit "Server Key")).

Definition clientFirstBare (clientNonce : jsstring) : jsstring := lit "n=*,r=" ++ clientNonce.
Definition clientFinalWithoutProof (serverNonce : jsstring) : jsstring :=
  lit "c=biws,r=" ++ serverNonce.

(** [authMessage = clientFirstBare + "," + serverFirst + "," +
    clientFinalWithoutProof]. *)
Definition authMessage (clientNonce serverFirst serverNonce : jsstring) : jsstring :=
  clientFirstBare clientNonce ++ lit "," ++ serverFirst ++ lit ","
  ++ clientFinalWithoutProof serverNonce.

(** [clientProof = base64(clientKey XOR HMAC(storedKey, authMessage))]. *)
Definition clientProof (saltedPassword : bytes) (authMessage : jsstring) : jsstring :=
  buffer_to_base64
    (xor_bytes (clientKey saltedPassword)
               (HMAC (storedKey saltedPassword) (utf8_encode authMessage))).

(** The expected [serverSignature = base64(HMAC(serverKey, authMessage))]. *)
Definition expected_serverSignature (saltedPassword : bytes) (authMessage : jsstring) : jsstring :=
  buffer_to_base64 (HMAC (serverKey saltedPassword) (utf8_encode authMessage)).

(** The final client message. *)
Definition clientFinal (saltedPassword : bytes) (authMessage serverNonce : jsstring) : jsstring :=
  clientFinalWithoutProof serverNonce ++ lit ",p=" ++ clientProof saltedPassword authMessage.

(** The server-first message with exactly the attributes [r], [s], [i], in
    this order. *)
Definition serverFirst (nonce salt iterationText : jsstring) : jsstring :=
  lit "r=" ++ nonce ++ lit ",s=" ++ salt ++ lit ",i=" ++ iterationText.

(** *** Attributes of a server-first message *)

(** The value of an entry [k=value]. *)
Definition entry_named (k : codeunit) (entry : jsstring) : option jsstring :=
  match entry with
  | c :: e :: v => if (c =? k) && (e =? chr "=") then Some v else None
  | _ => None
  end.

(** The attribute [k] of a message: the value of its last entry [k=...]. *)
Definition attribute (k : codeunit) (serverData : jsstring) : option jsstring :=
  last (omap (entry_named k) (split (chr ",") serverData)).

(** Every comma-separated entry is a pair [<single-char>=<rest>]. *)
Definition well_formed (serverData : jsstring) : Prop :=
  Forall (fun e => Scram.test_attr e = true) (split (chr ",") serverData).

(** Printable ASCII excluding the comma, at least one character. *)
Definition printable (s : jsstring) : Prop :=
  s <> [] /\ Forall (fun c => 33 <= c <= 126 /\ c <> 44) s.

(** Base64 text: characters of the alphabet, then no, one or two [=], a
    multiple of four characters in all. *)
Definition valid_base64 (s : jsstring) : Prop :=
  exists body padding,
    s = body ++ padding /\ Forall (fun c => is_b64 c = true) body
    /\ (padding = [] \/ padding = lit "=" \/ padding = lit "==")
    /\ (length s mod 4 = 0)%nat.

(** The decimal numeral of a positive integer. *)
Definition positive_decimal (s : jsstring) : Prop :=
  exists n : N, 1 <= n /\ s = number_to_string n.

(** The server nonce starts with the client nonce and is longer. *)
Definition extends (clientNonce serverNonce : jsstring) : Prop :=
  exists suffix, suffix <> [] /\ serverNonce = clientNonce ++ suffix.

(** What the validation accepts, on the attributes of the message: the
    checks of lines 99-114 hold of its last [r], [s] and [i]. *)
Record accepted (clientNonce serverData nonce salt iterationText : jsstring) : Prop := {
  acc_pairs : well_formed serverData;
  acc_r : attribute (chr "r") serverData = Some nonce;
  acc_s : attribute (chr "s") serverData = Some salt;
  acc_i : attribute (chr "i") serverData = Some iterationText;
  acc_nonce : Scram.test_nonce nonce = true;
  acc_salt : salt <> [] /\ Scram.test_base64 salt = true;
  acc_iterations : Scram.test_iterations iterationText = true;
  acc_prefix : startsWith nonce clientNonce = true;
  acc_longer : length nonce <> length clientNonce
}.

(** A server-first message the specification's validation rejects: the nonce
    is absent, unprintable or does not extend the client nonce, the salt is
    absent or not base64, the iteration count is absent or not a positive
    decimal integer. *)
Definition invalid (clientNonce serverData : jsstring) : Prop :=
  match attribute (chr "r") serverData with
  | None => True
  | Some r => ~ printable r \/ ~ extends clientNonce r
  end
  \/ match attribute (chr "s") serverData with
     | None => True
     | Some s => ~ valid_base64 s
     end
  \/ match attribute (chr "i") serverData with
     | None => True
     | Some i => ~ positive_decimal i
     end.

(** The errors of the validation (malformed attributes, nonce, salt and
    iteration-count failures). *)
Definition validation_error (e : Scram.Error) : bool :=
  match e with
  | Scram.InvalidAttributePair | Scram.NonceMissingOrUnprintable
  | Scram.SaltMissingOrNotBase64 | Scram.IterationCountMissingOrInvalid
  | Scram.NonceWithoutClientNonce | Scram.NonceTooShort => true
  | Scram.ProtocolError | Scram.ProviderError _ => false
  end.



End ScramSpec.

(** ** Sessions and messages used as examples *)

Module ScramExamples.
Import JS Scram.

(** A session that awaits the server-first message, as the pg client starts
    it. *)
Definition session0 : Session :=
  {| message := SASLInitialResponse;
     clientNonce := lit "fyko+d2lbbFgONRv";
     serverSignature := None;
     response := lit "n,,n=*,r=fyko+d2lbbFgONRv" |}.

Definition client0 : Client :=
  {| password := VString (lit "pencil"); saslSession := session0;
     sent := []; subtle_calls := [] |}.

Definition nonce0 : jsstring := lit "fyko+d2lbbFgONRv9qkxdawL".
Definition salt0 : jsstring := lit "QSXCR+Q6sek8bf92".

(** A server-first message with the attributes in the usual order. *)
Definition server_first0 : jsstring :=
  lit "r=fyko+d2lbbFgONRv9qkxdawL,s=QSXCR+Q6sek8bf92,i=2".

(** The same attributes, the salt first. *)
Definition server_first_reordered : jsstring :=
  lit "s=QSXCR+Q6sek8bf92,r=fyko+d2lbbFgONRv9qkxdawL,i=2".


(** An iteration count that is no numeral. *)
Definition server_first_bad_count : jsstring :=
  lit "r=fyko+d2lbbFgONRv9qkxdawL,s=QSXCR+Q6sek8bf92,i=4k".

(** A session whose step has been made. *)
Definition client_done : Client :=
  {| password := VString (lit "pencil");
     saslSession :=
       {| message := SASLResponse;
          clientNonce := lit "fyko+d2lbbFgONRv";
          serverSignature := Some (lit "dGVzdA==");
          response := lit "c=biws,r=fyko+d2lbbFgONRv9qkxdawL,p=dGVzdA==" |};
     sent := [lit "c=biws,r=fyko+d2lbbFgONRv9qkxdawL,p=dGVzdA=="];
     subtle_calls := [] |}.

End ScramExamples.

(** ** [NeonClient.connect] (src/export/index.ts, 43-88)

    The connection is an event emitter.  A listener is a closure of the
    source, or one that [super.connect] (the pg client) has installed; what a
    listener does outside this file -- a method of the pg client it calls, an
    event it emits on the stream -- is recorded as an effect. *)

Module Connect.
Import JS.

(** [pipelineConnect: 'password' | false] (index.d.ts, line 35). *)
Inductive PipelineConnect := Password | Off.

(** The [neonConfig] options [connect] reads. *)
Record NeonConfig := {
  useSecureWebSocket : bool;
  pipelineTLS : bool;
  pipelineConnect : PipelineConnect
}.

Inductive Listener :=
| Inherited (label : string)
    (** a listener installed by [super.connect] *)
| Bound (method : string)
    (** [this.method.bind(this)] *)
| FakeSslSupport
    (** [() => con.stream.emit('data', 'S')], line 65 *)
| ReinstallReadyForQuery
    (** [() => con.on('readyForQuery', this._handleReadyForQuery.bind(this))],
        line 78 *)
| PipelinedStartup.
    (** [() => { this._handleAuthCleartextPassword();
        this._handleReadyForQuery(); }], lines 81-84 *)

(** A registration of [on] ([once = false]) or [once]. *)
Record Registration := { once : bool; listener : Listener }.

#[global] Instance Listener_eq_dec : EqDecision Listener.
Proof. solve_decision. Defined.
#[global] Instance Registration_eq_dec : EqDecision Registration.
Proof. solve_decision. Defined.

Inductive Warning := DoubleEncryption | HostIsLocalhost.

Inductive Effect :=
| Warned (w : Warning)
    (** [console.warn] *)
| Ran (label : string)
    (** an inherited listener ran *)
| Called (method : string)
    (** [this.method()] *)
| StreamEmitted (event : string) (data : jsstring).
    (** [con.stream.emit(event, data)] *)

(** The client: [this.ssl] (as a truth value), [this.host], the
    configuration, the listeners of [this.connection] by event, and the
    effects so far, oldest first. *)
Record Client := {
  ssl : bool;
  host : string;
  neonConfig : NeonConfig;
  events : gmap string (list Registration);
  effects : list Effect
}.

Definition with_events (f : gmap string (list Registration) -> gmap string (list Registration))
  (c : Client) : Client :=
  {| ssl := ssl c; host := host c; neonConfig := neonConfig c;
     events := f (events c); effects := effects c |}.

Definition effect (e : list Effect) (c : Client) : Client :=
  {| ssl := ssl c; host := host c; neonConfig := neonConfig c;
     events := events c; effects := effects c ++ e |}.

(** [con.listeners(ev)]. *)
Definition listeners (ev : string) (c : Client) : list Registration :=
  default [] (events c !! ev).

(** [con.on(ev, l)] and [con.once(ev, l)]: the listener is added last. *)
Definition register (r : Registration) (ev : string) (c : Client) : Client :=
  with_events (fun e => <[ev := listeners ev c ++ [r]]> e) c.
Definition on (ev : string) (l : Listener) : Client -> Client :=
  register {| once := false; listener := l |} ev.
Definition once_ (ev : string) (l : Listener) : Client -> Client :=
  register {| once := true; listener := l |} ev.

(** [con.removeAllListeners(ev)]. *)
Definition removeAllListeners (ev : string) : Client -> Client :=
  with_events (delete ev).

(** Removal of one registration (what a [once] wrapper does before it calls
    its listener). *)
Fixpoint remove_first (r : Registration) (l : list Registration) : list Registration :=
  match l with
  | [] => []
  | x :: l' => if decide (x = r) then l' else x :: remove_first r l'
  end.

Definition unregister (r : Registration) (ev : string) (c : Client) : Client :=
  with_events (fun e => <[ev := remove_first r (listeners ev c)]> e) c.

(** The call of a listener. *)
Definition call (l : Listener) (c : Client) : Client :=
  match l with
  | Inherited label => effect [Ran label] c
  | Bound method => effect [Called method] c
  | FakeSslSupport => effect [StreamEmitted "data" (lit "S")] c
  | ReinstallReadyForQuery => on "readyForQuery" (Bound "_handleReadyForQuery") c
  | PipelinedStartup =>
      effect [Called "_handleReadyForQuery"]
        (effect [Called "_handleAuthCleartextPassword"] c)
  end.

(** [con.emit(ev)]: the listeners registered when the event is emitted are
    called in the order of registration; a [once] registration is removed
    before its listener is called. *)
Fixpoint dispatch (ev : string) (rs : list Registration) (c : Client) : Client :=
  match rs with
  | [] => c
  | r :: rest =>
      dispatch ev rest (call (listener r) (if once r then unregister r ev c else c))
  end.

Definition emit (ev : string) (c : Client) : Client := dispatch ev (listeners ev c) c.

(** A sequence of events of the connection, in order. *)
Definition emit_all (evs : list string) (c : Client) : Client :=
  fold_left (fun c ev => emit ev c) evs c.

Definition warn_if (b : bool) (w : Warning) (c : Client) : Client :=
  if b then effect [Warned w] c else c.

(** Lines 44-49: the warnings. *)
Definition connect_warnings (this : Client) : Client :=
  let this := warn_if (ssl this && useSecureWebSocket (neonConfig this)) DoubleEncryption this in
  warn_if (String.eqb (host this) "localhost") HostIsLocalhost this.

(** The name of the event the pipelined startup waits for (line 80). *)
Definition connectEvent (this : Client) : string :=
  if ssl this then "sslconnect" else "connect".

(** Lines 53-87: what [connect] does once [super.connect] has returned. *)
Definition connect_pipelining (this : Client) : Client :=
  let pipelineTLS := pipelineTLS (neonConfig this) && ssl this in
  let pipelineConnect :=
    match pipelineConnect (neonConfig this) with Password => true | Off => false end in
  if negb pipelineTLS && negb pipelineConnect then this
  else
    let this := if pipelineTLS then on "connect" FakeSslSupport this else this in
    if pipelineConnect then
      let this := removeAllListeners "authenticationCleartextPassword" this in
      let this := removeAllListeners "readyForQuery" this in
      let this := once_ "readyForQuery" ReinstallReadyForQuery this in
      on (connectEvent this) PipelinedStartup this
    else this.

(** [connect]: [super_connect] is the pg client's [connect], which installs
    its listeners. *)
Definition connect (super_connect : Client -> Client) (this : Client) : Client :=
  connect_pipelining (super_connect (connect_warnings this)).

(** What the call of a listener adds to the effects. *)
Definition listener_effects (l : Listener) : list Effect :=
  match l with
  | Inherited label => [Ran label]
  | Bound method => [Called method]
  | FakeSslSupport => [StreamEmitted "data" (lit "S")]
  | ReinstallReadyForQuery => []
  | PipelinedStartup => [Called "_handleAuthCleartextPassword"; Called "_handleReadyForQuery"]
  end.

(** The listeners the pg client installs that matter here: on [connect] it
    sends the SSL request or the startup message, on [sslconnect] the startup
    message, and each message of the server is handed to the method of its
    name.  (An instance of [super_connect], for examples.) *)
Definition pg_connect (this : Client) : Client :=
  fold_left (fun c p => on (fst p) (snd p) c)
    [ ("connect", Inherited (if ssl this then "requestSsl" else "startup"));
      ("sslconnect", Inherited "startup");
      ("authenticationCleartextPassword", Bound "_handleAuthCleartextPassword");
      ("authenticationMD5Password", Bound "_handleAuthMD5Password");
      ("authenticationSASL", Bound "_handleAuthSASL");
      ("authenticationSASLContinue", Bound "_handleAuthSASLContinue");
      ("authenticationSASLFinal", Bound "_handleAuthSASLFinal");
      ("readyForQuery", Bound "_handleReadyForQuery") ]
    this.

(** A client with [pipelineConnect = 'password'] and no SSL, before
    [connect]. *)
Definition client_password : Client :=
  {| ssl := false; host := "db.example";
     neonConfig := {| useSecureWebSocket := true; pipelineTLS := false;
                      pipelineConnect := Password |};
     events := ∅; effects := [] |}.

(** A client with SSL on the Postgres connection and both pipelinings. *)
Definition client_tls : Client :=
  {| ssl := true; host := "db.example";
     neonConfig := {| useSecureWebSocket := false; pipelineTLS := true;
                      pipelineConnect := Password |};
     events := ∅; effects := [] |}.

(** Only listeners of the pg client are registered. *)
Definition inherited_listener (l : Listener) : bool :=
  match l with
  | Inherited _ | Bound _ => true
  | _ => false
  end.

Definition inherited_only (c : Client) : Prop :=
  map_Forall (fun _ rs => Forall (fun r => inherited_listener (listener r) = true) rs)
    (events c).

(** Modelled from the spec: the stream's handling of the server's answer to
    the SSL request is in the pg connection and the socket shim
    (shims/net/index.ts), which are not among the sources.  "The Transport
    synthesizes the server's single-byte SSL-acceptance response locally
    instead of waiting for it from the wire, immediately invoking
    [startTls]." *)
Inductive SslAnswer := StartTls | SslRefused.

Definition ssl_response (data : jsstring) : SslAnswer :=
  if str_eqb data (lit "S") then StartTls else SslRefused.

End Connect.

(** ** Shaping of an HTTP query result *)

Module HttpQuery.

(** Modelled from the spec: the HTTP query function (httpQuery.ts) is not
    among the sources; only its result types ([QueryRows],
    [FullQueryResults], index.d.ts lines 255-262) and a test are.
    "[arrayMode=false] (default) yields objects keyed by column name; [true]
    yields positional arrays.  [fullResults=false] (default) yields bare rows;
    [true] yields [{fields, command, rowCount, rows, rowAsArray}]." *)
Inductive Row (V : Type) :=
| ObjectRow (o : gmap string V)
| ArrayRow (a : list V).
Arguments ObjectRow {V} o.
Arguments ArrayRow {V} a.

(** What the server answers: the column names, the command, the row count
    and the rows, each a list of column values. *)
Record RawResults (V : Type) := {
  raw_fields : list string;
  raw_command : string;
  raw_rowCount : N;
  raw_rows : list (list V)
}.
Arguments raw_fields {V} r.
Arguments raw_command {V} r.
Arguments raw_rowCount {V} r.
Arguments raw_rows {V} r.

Record FullQueryResults (V : Type) := {
  fields : list string;
  command : string;
  rowCount : N;
  rows : list (Row V);
  rowAsArray : bool
}.
Arguments fields {V} f.
Arguments command {V} f.
Arguments rowCount {V} f.
Arguments rows {V} f.
Arguments rowAsArray {V} f.

Inductive QueryResult (V : Type) :=
| BareRows (rows : list (Row V))
| Envelope (full : FullQueryResults V).
Arguments BareRows {V} rows.
Arguments Envelope {V} full.

(** The options of a call; an option left out is [undefined]. *)
Record HTTPQueryOptions := {
  arrayMode : option bool;
  fullResults : option bool
}.

(** An object keyed by column name: a later column of the same name replaces
    the earlier one. *)
Definition object_of {V} (names : list string) (row : list V) : gmap string V :=
  fold_left (fun o p => <[fst p := snd p]> o) (zip names row) ∅.

Definition shape_row {V} (arrayMode : bool) (names : list string) (row : list V) : Row V :=
  if arrayMode then ArrayRow row else ObjectRow (object_of names row).

Definition processQueryResult {V} (opts : HTTPQueryOptions) (raw : RawResults V) : QueryResult V :=
  let arrayMode := default false (arrayMode opts) in
  let rows := map (shape_row arrayMode (raw_fields raw)) (raw_rows raw) in
  if default false (fullResults opts)
  then Envelope {| fields := raw_fields raw; command := raw_command raw;
                   rowCount := raw_rowCount raw; rows := rows; rowAsArray := arrayMode |}
  else BareRows rows.

(** The answer to [SELECT 1 AS one]. *)
Definition select_one : RawResults N :=
  {| raw_fields := ["one"%string]; raw_command := "SELECT"; raw_rowCount := 1;
     raw_rows := [[1]] |}.

End HttpQuery.

(** ** Counting the calls of the provider *)

Module ScramCalls.
Import Scram.

Definition is_importKey (call : SubtleCall) : bool :=
  match call with CallImportKey _ => true | _ => false end.
Definition is_sign (call : SubtleCall) : bool :=
  match call with CallSign _ _ => true | _ => false end.
Definition is_digest (call : SubtleCall) : bool :=
  match call with CallDigest _ => true | _ => false end.

(** The number of calls of one kind. *)
Definition count (kind : SubtleCall -> bool) (calls : list SubtleCall) : nat :=
  length (List.filter kind calls).

End ScramCalls.

(** ** The timing helpers of the query tests (src/src/util.ts)

    A helper is an [async] function; it is run to completion from a world,
    which holds whatever its calls read and change: the clock, the database
    behind a client or a pool. *)

Module Util.
Import JS.

(** An [async] function from a world [W]: it resolves with a value or rejects
    with an [E], and leaves the world as its calls have changed it. *)
Definition Async (W E A : Type) : Type := W -> (E + A) * W.

#[export] Instance Async_ret {W E} : MRet (Async W E) := fun A a w => (inr a, w).
#[export] Instance Async_bind {W E} : MBind (Async W E) := fun A B k m w =>
  match m w with
  | (inr a, w') => k a w'
  | (inl e, w') => (inl e, w')
  end.

Definition reject {W E A} (e : E) : Async W E A := fun w => (inl e, w).

(** [Date.now()]: the clock of the world, in milliseconds. *)
Class Clock (W : Type) := Date_now : W -> Z.

Definition now {W E} `{Clock W} : Async W E Z := fun w => (inr (Date_now w), w).

(** [timed] (lines 4-9). *)
Definition timed {W E A} `{Clock W} (f : Async W E A) : Async W E (Z * A) :=
  t0 ← now;
  result ← f;
  t1 ← now;
  let t := (t1 - t0)%Z in
  mret (t, result).

(** The default [timeListener], [(ms, result) => { }]. *)
Definition timeListener_default {W E A} : Z -> A -> Async W E unit := fun _ _ => mret tt.

(** The body of the [for] loop of [timedRepeats], [k] more times: [results]
    is the array so far ([results.push] adds at the end). *)
Fixpoint timedRepeats_loop {W E A} `{Clock W} (k : nat) (f : Async W E A)
  (timeListener : Z -> A -> Async W E unit) (results : list (Z * A))
  : Async W E (list (Z * A)) :=
  match k with
  | O => mret results
  | S k' =>
      tPlusResult ← timed f;
      timeListener (fst tPlusResult) (snd tPlusResult);;
      timedRepeats_loop k' f timeListener (results ++ [tPlusResult])
  end.

(** [timedRepeats] (lines 11-21).  [n] is a whole number: the loop runs [n]
    times, and not at all for [n <= 0]. *)
Definition timedRepeats {W E A} `{Clock W} (n : Z) (f : Async W E A)
  (timeListener : Z -> A -> Async W E unit) : Async W E (Z * list (Z * A)) :=
  results ← timedRepeats_loop (Z.to_nat n) f timeListener [];
  let total := fold_left (fun memo tr => (memo + fst tr)%Z) results 0%Z in
  mret (total, results).

(** *** Queries *)

(** The calls the helpers make on what they are given -- a client, a pool,
    the execution context --, as they were made. *)
Inductive Call :=
| CallNewPool (connectionString : jsstring)
    (** [new Pool({ connectionString })] *)
| CallConnect
    (** [client.connect()] *)
| CallQuery (sql : jsstring)
    (** [queryable.query(sql)] *)
| CallEnd
    (** [client.end()], [pool.end()] *)
| CallWaitUntil.
    (** [ctx.waitUntil(promise)] *)

(** The world of a run: the state [Env] of what lies outside (database,
    network, clock) and the calls made so far, oldest first. *)
Record World (Env : Type) := { env : Env; log : list Call }.
Arguments env {Env} w.
Arguments log {Env} w.

#[export] Instance World_clock {Env} `{Clock Env} : Clock (World Env) :=
  fun w => Date_now (env w).

(** What a helper rejects with: the [Error] of [runQuery] (line 26, its
    message holds the query and the rows), or what a call rejected with. *)
Inductive Thrown (Rows Reason : Type) :=
| ResultFailsTest (sql : jsstring) (rows : Rows)
| Rejected (reason : Reason).
Arguments ResultFailsTest {Rows Reason} sql rows.
Arguments Rejected {Rows Reason} reason.

(** A [Query]: the fields [runQuery] reads. *)
Record Query (Rows : Type) := { sql : jsstring; test : Rows -> bool }.
Arguments sql {Rows} q.
Arguments test {Rows} q.

(** A client: [connect] and [query] are awaited and may reject; [end] is
    called and its promise handed on, not awaited. *)
Record Client (Env Rows Reason : Type) := {
  client_connect : Env -> (Reason + unit) * Env;
  client_query : jsstring -> Env -> (Reason + Rows) * Env;
  client_end : Env -> Env
}.
Arguments client_connect {Env Rows Reason} c.
Arguments client_query {Env Rows Reason} c.
Arguments client_end {Env Rows Reason} c.

(** A pool: [query] is awaited, [end] is called and not awaited. *)
Record Pool (Env Rows Reason : Type) := {
  pool_query : jsstring -> Env -> (Reason + Rows) * Env;
  pool_end : Env -> Env
}.
Arguments pool_query {Env Rows Reason} p.
Arguments pool_end {Env Rows Reason} p.

(** The [ExecutionContext] of the worker: [waitUntil] takes a promise to
    keep the worker alive for. *)
Record ExecutionContext (Env : Type) := { waitUntil : Env -> Env }.
Arguments waitUntil {Env} e.

(** An awaited call: it is logged, and the helper rejects with what the call
    rejects with. *)
Definition awaited {Env Rows Reason A} (c : Call) (h : Env -> (Reason + A) * Env)
  : Async (World Env) (Thrown Rows Reason) A := fun w =>
  match h (env w) with
  | (inr a, s) => (inr a, {| env := s; log := log w ++ [c] |})
  | (inl r, s) => (inl (Rejected r), {| env := s; log := log w ++ [c] |})
  end.

(** A call whose outcome is not awaited: it is logged and has acted on the
    environment. *)
Definition started {Env Rows Reason} (c : Call) (h : Env -> Env)
  : Async (World Env) (Thrown Rows Reason) unit := fun w =>
  (inr tt, {| env := h (env w); log := log w ++ [c] |}).

(** [runQuery] (lines 23-28); [queryable_query] is [queryable.query], its
    value the [rows] of the result. *)
Definition runQuery {Env Rows Reason}
  (queryable_query : jsstring -> Env -> (Reason + Rows) * Env) (query : Query Rows)
  : Async (World Env) (Thrown Rows Reason) Rows :=
  let sql := sql query in
  let test := test query in
  rows ← awaited (CallQuery sql) (queryable_query sql);
  if negb (test rows) then reject (ResultFailsTest sql rows)
  else mret rows.

(** [clientRunQuery] (lines 30-35). *)
Definition clientRunQuery {Env Rows Reason} `{Clock Env} (n : Z)
  (client : Client Env Rows Reason) (ctx : ExecutionContext Env) (query : Query Rows)
  : Async (World Env) (Thrown Rows Reason) (Z * list (Z * Rows)) :=
  awaited CallConnect (client_connect client);;
  tPlusResults ← timedRepeats n (runQuery (client_query client) query) timeListener_default;
  started CallEnd (client_end client);;
  started CallWaitUntil (waitUntil ctx);;
  mret tPlusResults.

(** [poolRunQuery] (lines 37-42); [new_Pool] is the constructor, which opens
    no connection. *)
Definition poolRunQuery {Env Rows Reason} `{Clock Env}
  (new_Pool : jsstring -> Pool Env Rows Reason) (n : Z) (dbUrl : jsstring)
  (ctx : ExecutionContext Env) (query : Query Rows)
  : Async (World Env) (Thrown Rows Reason) (Z * list (Z * Rows)) :=
  pool ← (started (CallNewPool dbUrl) id;; mret (new_Pool dbUrl));
  tPlusResults ← timedRepeats n (runQuery (pool_query pool) query) timeListener_default;
  started CallEnd (pool_end pool);;
  started CallWaitUntil (waitUntil ctx);;
  mret tPlusResults.

(** *** What a run of [timedRepeats] goes through *)

(** One turn of the loop that goes through: [f] resolves, the listener
    returns. *)
Definition turn {W E A} `{Clock W} (f : Async W E A)
  (timeListener : Z -> A -> Async W E unit) (w : W) (tr : Z * A) (w' : W) : Prop :=
  exists w1, timed f w = (inr tr, w1) /\ timeListener (fst tr) (snd tr) w1 = (inr tt, w').

(** After [i] turns over [runQuery] from the world [w0]: [i] queries have
    been made, and the [i] results so far have passed the test. *)
Definition queried {Env Rows} (query : Query Rows) (w0 : World Env) (i : nat)
  (acc : list (Z * Rows)) (w : World Env) : Prop :=
  log w = log w0 ++ replicate i (CallQuery (sql query))
  /\ length acc = i
  /\ Forall (fun tr => test query (snd tr) = true) acc.

(** A listener that notes what it is told, and [f] beside the notes: the
    world is a world [Env] of [f] together with the notes, oldest first. *)
Definition with_notes {Env E A} (f : Async Env E A) : Async (Env * list (Z * A)) E A :=
  fun w =>
  match f (fst w) with
  | (r, s) => (r, (s, snd w))
  end.

Definition note_listener {Env E A} : Z -> A -> Async (Env * list (Z * A)) E unit :=
  fun t result w => (inr tt, (fst w, snd w ++ [(t, result)])).

#[export] Instance notes_clock {Env A} `{Clock Env} : Clock (Env * list (Z * A)) :=
  fun w => Date_now (fst w).

(** *** A database for examples

    The state is the clock and the number of queries answered; a query takes
    seven milliseconds and answers with that number, and the fourth query is
    refused. *)
Record Db := { db_clock : Z; db_answered : N }.

#[export] Instance Db_clock : Clock Db := db_clock.

Definition db_tick (ms : Z) (d : Db) : Db :=
  {| db_clock := (db_clock d + ms)%Z; db_answered := db_answered d |}.

Definition db_query (_ : jsstring) (d : Db) : (string + list N) * Db :=
  let d' := {| db_clock := (db_clock d + 7)%Z; db_answered := db_answered d + 1 |} in
  if db_answered d <? 3 then (inr [db_answered d], d')
  else (inl "connection terminated"%string, d').

Definition db_client : Client Db (list N) string :=
  {| client_connect := fun d => (inr tt, db_tick 20 d);
     client_query := db_query;
     client_end := db_tick 1 |}.

Definition db_pool (_ : jsstring) : Pool Db (list N) string :=
  {| pool_query := db_query; pool_end := db_tick 1 |}.

Definition db_ctx : ExecutionContext Db := {| waitUntil := id |}.

Definition db0 : World Db := {| env := {| db_clock := 1000; db_answered := 0 |}; log := [] |}.

(** [SELECT 1], with a test that holds of every result, and one that wants
    the answer below two. *)
Definition query_any : Query (list N) := {| sql := lit "SELECT 1"; test := fun _ => true |}.
Definition query_small : Query (list N) :=
  {| sql := lit "SELECT 1"; test := fun rows => forallb (fun x => x <? 2) rows |}.

End Util.

(** * Facts about the built-ins *)

Import JS Subtle.

Section BuiltinFacts.

(** Where the second array is at least as long as the first, the indexed XOR
    of the source is the bytewise XOR. *)
Lemma map_xor_zip (a b : bytes) :
  (length a <= length b)%nat -> map_xor a b = zip_with byte_xor a b.
Proof.
  unfold map_xor. revert b.
  induction a as [|x a IH]; intros b Hlen; [reflexivity|].
  destruct b as [|y b]; [simpl in Hlen; lia|].
  rewrite imap_cons. simpl. f_equal.
  rewrite <- IH by (simpl in Hlen; lia).
  apply imap_ext. intros i z _. reflexivity.
Qed.

Lemma length_zip_byte_xor (a b : bytes) :
  length a = length b -> length (zip_with byte_xor a b) = length a.
Proof. intros Hlen. rewrite length_zip_with. lia. Qed.

Lemma length_bytes_of_state (s : hash_state) : length (bytes_of_state s) = 32%nat.
Proof. reflexivity. Qed.

Lemma length_sha256 (m : bytes) : length (sha256 m) = 32%nat.
Proof. apply length_bytes_of_state. Qed.

Lemma length_hmac_sha256 (key m : bytes) : length (hmac_sha256 key m) = 32%nat.
Proof. apply length_sha256. Qed.

Lemma length_sign (key : CryptoKey) (m : bytes) : length (sign key m) = 32%nat.
Proof. apply length_hmac_sha256. Qed.

Lemma importKey_nonempty (data : bytes) :
  data <> [] -> importKey data = inr {| raw_key := data |}.
Proof. destruct data; [congruence | reflexivity]. Qed.

Lemma utf8_of_scalar_nonempty (cp : N) : utf8_of_scalar cp <> [].
Proof. unfold utf8_of_scalar. repeat case_match; discriminate. Qed.

(** A non-empty string has a non-empty encoding. *)
Lemma utf8_encode_nonempty (s : jsstring) : s <> [] -> utf8_encode s <> [].
Proof.
  destruct s as [|c r]; [congruence|]. intros _ E. simpl in E.
  repeat case_match; try discriminate E;
    apply app_eq_nil in E; destruct E as [E _]; exact (utf8_of_scalar_nonempty _ E).
Qed.

Lemma startsWith_prefix (s p : jsstring) : startsWith s p = true <-> p `prefix_of` s.
Proof.
  revert s. induction p as [|a p IH]; intros s; simpl.
  - split; [intros _; apply prefix_nil | reflexivity].
  - destruct s as [|b s].
    + split; [discriminate | intros H; now apply prefix_nil_not in H].
    + rewrite andb_true_iff, N.eqb_eq, IH. split.
      * intros [-> H]. now apply prefix_cons.
      * intros H. split; [now apply prefix_cons_inv_1 in H | now apply prefix_cons_inv_2 in H].
Qed.

End BuiltinFacts.

Section NumberFacts.

Lemma digits_fuel_acc (f : nat) (n : N) (acc : jsstring) :
  digits_fuel f n acc = digits_fuel f n [] ++ acc.
Proof.
  revert n acc. induction f as [|f IH]; intros n acc; simpl; [reflexivity|].
  destruct (n <? 10); [reflexivity|].
  rewrite IH. rewrite (IH _ [_]). now rewrite <- app_assoc.
Qed.

(** Any fuel above the binary logarithm gives the same digits. *)
Lemma digits_fuel_enough (f1 f2 : nat) (n : N) (acc : jsstring) :
  (0 < f1)%nat -> (0 < f2)%nat -> n < 2 ^ N.of_nat f1 -> n < 2 ^ N.of_nat f2 ->
  digits_fuel f1 n acc = digits_fuel f2 n acc.
Proof.
  revert f2 n acc. induction f1 as [|f1 IH]; intros f2 n acc P1 P2 H1 H2; [lia|].
  destruct f2 as [|f2]; [lia|].
  simpl. destruct (n <? 10) eqn:E; [reflexivity|].
  apply N.ltb_ge in E.
  rewrite Nat2N.inj_succ, N.pow_succ_r' in H1, H2.
  assert (1 <= n / 10) by (apply N.div_le_lower_bound; lia).
  assert (n / 10 < 2 ^ N.of_nat f1) by (apply N.Div0.div_lt_upper_bound; lia).
  assert (n / 10 < 2 ^ N.of_nat f2) by (apply N.Div0.div_lt_upper_bound; lia).
  apply IH; try assumption.
  - destruct f1; [simpl in *; lia | lia].
  - destruct f2; [simpl in *; lia | lia].
Qed.

Lemma number_to_string_digit (n : N) : n < 10 -> number_to_string n = [chr "0" + n].
Proof.
  intros H. unfold number_to_string. simpl.
  apply N.ltb_lt in H as H'. rewrite H'. now rewrite N.mod_small.
Qed.

Lemma number_to_string_snoc (n d : N) :
  1 <= n -> d < 10 -> number_to_string (10 * n + d) = number_to_string n ++ [chr "0" + d].
Proof.
  intros Hn Hd. unfold number_to_string at 1. simpl digits_fuel.
  assert ((10 * n + d <? 10) = false) as -> by (apply N.ltb_ge; lia).
  replace ((10 * n + d) / 10) with n
    by (apply N.div_unique with d; lia).
  replace ((10 * n + d) mod 10) with d
    by (apply N.mod_unique with n; lia).
  rewrite digits_fuel_acc. f_equal.
  assert (N.succ (N.log2 n) <= N.log2 (10 * n + d)) as Hlog.
  { pose proof (N.log2_spec n ltac:(lia)) as [Hlo _].
    apply N.log2_le_pow2; [lia|]. rewrite N.pow_succ_r'. lia. }
  apply digits_fuel_enough; [lia | lia | |].
  - rewrite N2Nat.id.
    pose proof (N.log2_spec n ltac:(lia)) as [Hlo Hhi].
    apply N.lt_le_trans with (2 ^ N.succ (N.log2 n)); [exact Hhi|].
    apply N.pow_le_mono_r; [lia | exact Hlog].
  - rewrite Nat2N.inj_succ, N2Nat.id. apply N.log2_spec. lia.
Qed.

Lemma is_digit_spec (c : N) : is_digit c = true <-> 48 <= c <= 57.
Proof.
  unfold is_digit, in_range, chr. simpl.
  rewrite andb_true_iff, !N.leb_le. reflexivity.
Qed.

Lemma parseInt10_from_snoc (s : jsstring) (d acc : N) :
  forallb is_digit s = true -> is_digit d = true ->
  parseInt10_from acc (s ++ [d]) = 10 * parseInt10_from acc s + digit_value d.
Proof.
  revert acc. induction s as [|c s IH]; intros acc Hs Hd; simpl in *.
  - now rewrite Hd.
  - apply andb_true_iff in Hs as [Hc Hs]. rewrite Hc. now apply IH.
Qed.

(** The numeral the iteration count was read from is the numeral of the
    number read. *)
Lemma number_to_string_parseInt10 (text : jsstring) :
  Scram.test_iterations text = true ->
  1 <= parseInt10 text /\ number_to_string (parseInt10 text) = text.
Proof.
  destruct text as [|c r]; [discriminate|]. simpl.
  intros H. apply andb_true_iff in H as [Hc Hr].
  assert (48 < c <= 57) as Hc'.
  { unfold in_range, chr in Hc. simpl in Hc.
    apply andb_true_iff in Hc as [H1 H2]. apply N.leb_le in H1, H2. lia. }
  assert (is_digit c = true) as Hd by (apply is_digit_spec; lia).
  induction r as [|d r IH] using rev_ind.
  - unfold parseInt10. simpl. rewrite Hd. unfold digit_value, chr. simpl.
    split; [lia|]. rewrite number_to_string_digit by lia.
    unfold chr. simpl. f_equal. lia.
  - rewrite forallb_app in Hr. apply andb_true_iff in Hr as [Hr Hd'].
    simpl in Hd'. rewrite andb_true_r in Hd'.
    destruct (IH Hr) as [IH1 IH2].
    unfold parseInt10 in *.
    change (c :: r ++ [d]) with ((c :: r) ++ [d]).
    rewrite parseInt10_from_snoc by (simpl; try rewrite Hd; auto).
    apply is_digit_spec in Hd' as Hd''.
    split; [lia|].
    rewrite number_to_string_snoc; [| lia | unfold digit_value, chr; simpl; lia].
    rewrite IH2. simpl. do 3 f_equal.
    unfold digit_value, chr. simpl. lia.
Qed.

Lemma test_iterations_positive_decimal (text : jsstring) :
  Scram.test_iterations text = true -> ScramSpec.positive_decimal text.
Proof.
  intros H. destruct (number_to_string_parseInt10 text H) as [H1 H2].
  exists (parseInt10 text). split; [exact H1 | now symmetry].
Qed.

End NumberFacts.

Section ValidationFacts.

Lemma nonce_char_spec (c : N) : Scram.nonce_char c = true <-> 33 <= c <= 126 /\ c <> 44.
Proof.
  unfold Scram.nonce_char, in_range, chr. simpl.
  rewrite orb_true_iff, !andb_true_iff, !N.leb_le. lia.
Qed.

(** [/^[!-+--~]+$/] accepts the printable ASCII strings without a comma. *)
Lemma test_nonce_printable (s : jsstring) :
  Scram.test_nonce s = true <-> ScramSpec.printable s.
Proof.
  unfold ScramSpec.printable. destruct s as [|c r].
  - simpl. split; [discriminate | intros [H _]; congruence].
  - unfold Scram.test_nonce. rewrite forallb_forall, Forall_forall.
    split.
    + intros H. split; [discriminate|]. intros x Hx.
      apply nonce_char_spec, H. now apply list_elem_of_In.
    + intros [_ H] x Hx. apply nonce_char_spec, H. now apply list_elem_of_In.
Qed.

(** What the salt's regular expression accepts is base64 text. *)
Lemma test_base64_valid (s : jsstring) :
  Scram.test_base64 s = true -> ScramSpec.valid_base64 s.
Proof.
  remember (length s) as n eqn:Hn. revert s Hn.
  induction n as [n IH] using lt_wf_ind. intros s Hn Ht.
  destruct s as [|a [|b [|c [|d r]]]]; try discriminate Ht.
  - exists [], []. repeat split; auto.
  - destruct r as [|e r].
    + simpl in Ht. rewrite !andb_true_iff, !orb_true_iff, !andb_true_iff in Ht.
      destruct Ht as [[Ha Hb] [[[Hc Hd] | [Hc Hd]] | [Hc Hd]]].
      * exists [a; b; c; d], []. repeat split; auto; repeat constructor; auto.
      * apply N.eqb_eq in Hc, Hd. subst.
        exists [a; b], (lit "=="). repeat split; auto; repeat constructor; auto.
      * apply N.eqb_eq in Hd. subst.
        exists [a; b; c], (lit "="). repeat split; auto; repeat constructor; auto.
    + change (Scram.test_base64 (a :: b :: c :: d :: e :: r))
        with (is_b64 a && is_b64 b && is_b64 c && is_b64 d && Scram.test_base64 (e :: r)) in Ht.
      rewrite !andb_true_iff in Ht. destruct Ht as [[[[Ha Hb] Hc] Hd] Hr].
      destruct (IH (length (e :: r)) ltac:(subst n; simpl; lia) (e :: r) eq_refl Hr)
        as (body & padding & E & Hbody & Hpad & Hlen).
      exists (a :: b :: c :: d :: body), padding. split; [simpl; now rewrite <- E|].
      split; [repeat constructor; auto|]. split; [exact Hpad|].
      change (length (a :: b :: c :: d :: e :: r)) with (4 + length (e :: r))%nat.
      rewrite Nat.add_comm, <- Nat.Div0.add_mod_idemp_l, Hlen. reflexivity.
Qed.

End ValidationFacts.

Section AttributeFacts.
Import Scram ScramSpec.

Lemma attr_pair_ok (e : jsstring) :
  test_attr e = true ->
  exists name v, e = name :: chr "=" :: v /\ attr_pair e = inr (name, v).
Proof.
  intros H. unfold attr_pair. rewrite H. simpl.
  destruct e as [|c [|q v]]; try discriminate.
  simpl in H. apply andb_true_iff in H as [_ H]. apply N.eqb_eq in H. subst q.
  exists c, v. split; reflexivity.
Qed.

Lemma attr_pair_error (e : jsstring) :
  test_attr e = false -> attr_pair e = inl InvalidAttributePair.
Proof. intros H. unfold attr_pair. now rewrite H. Qed.

(** On entries that are all pairs the map does not throw, and its pairs are
    the names and values of the entries. *)
Lemma attr_pairs_ok (entries : list jsstring) :
  Forall (fun e => test_attr e = true) entries ->
  exists ps, attr_pairs entries = inr ps
             /\ Forall2 (fun e p => e = fst p :: chr "=" :: snd p) entries ps.
Proof.
  induction 1 as [|e entries He _ (ps & E & F)].
  - exists []. split; [reflexivity | constructor].
  - destruct (attr_pair_ok e He) as (name & v & -> & Ep).
    exists ((name, v) :: ps). cbn [attr_pairs]. rewrite Ep, E.
    split; [reflexivity | now constructor].
Qed.

(** An entry that is no pair makes the map throw. *)
Lemma attr_pairs_error (entries : list jsstring) :
  ~ Forall (fun e => test_attr e = true) entries ->
  attr_pairs entries = inl InvalidAttributePair.
Proof.
  induction entries as [|e entries IH]; intros H.
  - destruct H. constructor.
  - simpl. destruct (test_attr e) eqn:He.
    + destruct (attr_pair_ok e He) as (name & v & _ & ->).
      rewrite IH; [reflexivity|]. intros F. apply H. now constructor.
    + now rewrite attr_pair_error.
Qed.

Lemma fromEntries_snoc (ps : list (N * list N)) (p : N * list N) :
  fromEntries (ps ++ [p]) = <[fst p := snd p]> (fromEntries ps).
Proof. unfold fromEntries. now rewrite fold_left_app. Qed.

(** A property of the object is the value of the last entry of its name. *)
Lemma fromEntries_lookup (ps : list (N * list N)) (k : N) :
  fromEntries ps !! k
  = last (omap (fun p => if fst p =? k then Some (snd p) else None) ps).
Proof.
  induction ps as [|p ps IH] using rev_ind; [reflexivity|].
  rewrite fromEntries_snoc, omap_app. simpl.
  destruct (N.eqb_spec (fst p) k) as [->|Hne].
  - rewrite lookup_insert_eq. now rewrite last_snoc.
  - rewrite lookup_insert_ne by assumption. now rewrite app_nil_r.
Qed.

(** The attributes of a well-formed message are the properties of
    [attrPairs]. *)
Lemma attrPairs_attribute (serverData : jsstring) :
  well_formed serverData ->
  exists ps, attr_pairs (split (chr ",") serverData) = inr ps
             /\ forall k, fromEntries ps !! k = attribute k serverData.
Proof.
  intros W. destruct (attr_pairs_ok _ W) as (ps & E & F).
  exists ps. split; [exact E|]. intros k.
  rewrite fromEntries_lookup. unfold attribute. f_equal.
  clear E W. induction F as [|e p es ps' -> _ IH]; [reflexivity|].
  simpl. rewrite andb_true_r.
  destruct (fst p =? k); [f_equal|]; exact IH.
Qed.

Lemma parse_attrPairs_ok (serverData : jsstring) (c : Client) :
  well_formed serverData ->
  exists o : gmap N (list N),
    parse_attrPairs serverData c = (inr o, c)
    /\ forall k, o !! k = attribute k serverData.
Proof.
  intros W. destruct (attrPairs_attribute _ W) as (ps & E & L).
  exists (fromEntries ps). unfold parse_attrPairs. rewrite E. split; [reflexivity | exact L].
Qed.

Lemma parse_attrPairs_error (serverData : jsstring) (c : Client) :
  ~ well_formed serverData ->
  parse_attrPairs serverData c = (inl InvalidAttributePair, c).
Proof.
  intros W. unfold parse_attrPairs. now rewrite attr_pairs_error.
Qed.

Lemma required_ok (v : option jsstring) (s : jsstring) (test : jsstring -> bool)
  (e : Error) (c : Client) :
  v = Some s -> s <> [] -> test s = true -> required v test e c = (inr s, c).
Proof.
  intros -> Hs Ht. destruct s; [congruence|]. simpl. now rewrite Ht.
Qed.

Lemma required_error (v : option jsstring) (test : jsstring -> bool) (e : Error) (c : Client) :
  match v with
  | Some s => s = [] \/ test s = false
  | None => True
  end ->
  required v test e c = (inl e, c).
Proof.
  destruct v as [[|x s]|]; simpl; try reflexivity.
  intros [H|H]; [discriminate | now rewrite H].
Qed.

Lemma test_nonce_nonempty (s : jsstring) : test_nonce s = true -> s <> [].
Proof. destruct s; [discriminate | congruence]. Qed.

Lemma test_iterations_nonempty (s : jsstring) : test_iterations s = true -> s <> [].
Proof. destruct s; [discriminate | congruence]. Qed.

End AttributeFacts.

Section DerivationFacts.
Import Scram ScramSpec.

Lemma called_called (l1 l2 : list SubtleCall) (c : Client) :
  called l2 (called l1 c) = called (l1 ++ l2) c.
Proof. unfold called. simpl. now rewrite app_assoc. Qed.

Lemma called_nil (c : Client) : called [] c = c.
Proof. destruct c. unfold called. simpl. now rewrite app_nil_r. Qed.

Lemma length_rounds (P input : bytes) (n : nat) : length (rounds P input n) = n.
Proof. revert input. induction n as [|n IH]; intros input; simpl; [|rewrite IH]; reflexivity. Qed.

(** The loop of lines 123-126, run [n] times from a last output [ui1] and a
    running total [ui] of 32 bytes: the total of the [n] next rounds, after
    [n] calls of [sign]. *)
Lemma hi_loop_run (n : nat) (key : CryptoKey) (ui1 ui : bytes) (c : Client) :
  length ui = 32%nat ->
  hi_loop n key ui1 ui c
  = (inr (fold_left xor_bytes (rounds (raw_key key) ui1 n) ui),
     called (map (CallSign key) (take n (ui1 :: rounds (raw_key key) ui1 n))) c).
Proof.
  revert ui1 ui c. induction n as [|n IH]; intros ui1 ui c Hlen.
  - simpl. now rewrite called_nil.
  - cbn [hi_loop]. unfold mbind, M_bind, subtle_sign.
    rewrite IH.
    + rewrite called_called. rewrite map_xor_zip by (rewrite length_sign; lia).
      reflexivity.
    + rewrite map_xor_zip by (rewrite length_sign; lia).
      rewrite length_zip_byte_xor; [assumption|]. now rewrite length_sign.
Qed.

Lemma length_fold_xor_rounds (P input : bytes) (n : nat) (acc : bytes) :
  length acc = 32%nat -> length (fold_left xor_bytes (rounds P input n) acc) = 32%nat.
Proof.
  revert input acc. induction n as [|n IH]; intros input acc Hacc; [exact Hacc|].
  simpl. apply IH. unfold xor_bytes, HMAC.
  rewrite length_zip_byte_xor; [assumption | now rewrite length_hmac_sha256].
Qed.

Lemma length_Hi (P S : bytes) (n : nat) : (1 <= n)%nat -> length (Hi P S n) = 32%nat.
Proof.
  destruct n as [|n]; [lia|]. intros _. unfold Hi. simpl.
  apply length_fold_xor_rounds, length_hmac_sha256.
Qed.

Lemma nonempty_of_length (b : bytes) : length b = 32%nat -> b <> [].
Proof. now destruct b. Qed.

(** Lines 121-127. *)
Lemma derive_saltedPassword_run (key : CryptoKey) (saltBytes : bytes) (i : N) (c : Client) :
  1 <= i ->
  derive_saltedPassword key saltBytes i c
  = (inr (Hi (raw_key key) saltBytes (N.to_nat i)),
     called (map (CallSign key)
               (take (N.to_nat i)
                  ((saltBytes ++ [x00; x00; x00; x01])
                   :: rounds (raw_key key) (saltBytes ++ [x00; x00; x00; x01]) (N.to_nat i))))
            c).
Proof.
  intros Hi1. unfold derive_saltedPassword, mbind, M_bind, subtle_sign.
  rewrite hi_loop_run by apply length_sign.
  rewrite called_called.
  replace (N.to_nat i) with (S (N.to_nat (i - 1))) by lia.
  reflexivity.
Qed.

End DerivationFacts.

Section HandlerFacts.
Import Scram ScramSpec.

Lemma sign_HMAC (key : CryptoKey) (m : bytes) : sign key m = HMAC (raw_key key) m.
Proof. reflexivity. Qed.

Lemma digest_H (m : bytes) : digest m = H m.
Proof. reflexivity. Qed.

#[local] Opaque sign digest utf8_encode buffer_to_base64 buffer_from_base64
  number_to_string parseInt10 lit startsWith.

(** The guard of line 95. *)
Lemma handle_protocol_error (msg_data : value) (c : Client) :
  message (saslSession c) <> SASLInitialResponse
  \/ (forall s, password c <> VString s)
  \/ (forall s, msg_data <> VString s) ->
  handleAuthSASLContinue msg_data c = (inl ProtocolError, c).
Proof.
  intros H. unfold handleAuthSASLContinue, mbind, M_bind, get_client.
  destruct (message (saslSession c)) eqn:Em, (password c) eqn:Ep, msg_data eqn:Ed;
    try reflexivity.
  destruct H as [H | [H | H]]; [congruence | now destruct (H s) | now destruct (H s0)].
Qed.

(** The step on an accepted message: what the method leaves behind, in the
    specification's terms. *)
Lemma handle_accepted (c : Client) (pw serverData nonce salt iterationText : jsstring) :
  message (saslSession c) = SASLInitialResponse ->
  password c = VString pw ->
  pw <> [] ->
  accepted (clientNonce (saslSession c)) serverData nonce salt iterationText ->
  let saltedPassword :=
    Hi (utf8_encode pw) (buffer_from_base64 salt) (N.to_nat (parseInt10 iterationText)) in
  let am :=
    authMessage (clientNonce (saslSession c)) (serverFirst nonce salt iterationText) nonce in
  exists calls,
    handleAuthSASLContinue (VString serverData) c
    = (inr tt,
       {| password := password c;
          saslSession :=
            {| message := SASLResponse;
               clientNonce := clientNonce (saslSession c);
               serverSignature := Some (expected_serverSignature saltedPassword am);
               response := clientFinal saltedPassword am nonce |};
          sent := sent c ++ [clientFinal saltedPassword am nonce];
          subtle_calls := subtle_calls c ++ calls |}).
Proof.
  intros Hm Hp Hpw [W Hr Hs Hi Tn [Hs0 Ts] Ti Tp Tl] saltedPassword am.
  destruct (number_to_string_parseInt10 _ Ti) as [Hge Hround].
  destruct (parse_attrPairs_ok serverData c W) as (o & Eo & Lo).
  unfold handleAuthSASLContinue, mbind, M_bind, get_client.
  rewrite Hm, Hp, Eo.
  rewrite (required_ok _ nonce) by (rewrite ?Lo; auto using test_nonce_nonempty).
  rewrite (required_ok _ salt) by (rewrite ?Lo; auto).
  rewrite (required_ok _ iterationText) by (rewrite ?Lo; auto using test_iterations_nonempty).
  rewrite Tp. cbn [negb].
  destruct (Nat.eqb_spec (length nonce) (length (clientNonce (saslSession c)))) as [E|_];
    [contradiction|].
  unfold subtle_importKey at 1.
  rewrite (importKey_nonempty (utf8_encode pw)) by now apply utf8_encode_nonempty.
  rewrite derive_saltedPassword_run by exact Hge.
  cbn [raw_key]. fold saltedPassword.
  unfold subtle_importKey, subtle_sign, subtle_digest, set_session, sendSCRAMClientFinalMessage.
  assert (saltedPassword <> []) as Hsp
    by (apply nonempty_of_length, length_Hi; lia).
  rewrite !(importKey_nonempty saltedPassword) by exact Hsp.
  rewrite (importKey_nonempty (digest _)) by (apply nonempty_of_length, length_sha256).
  rewrite (importKey_nonempty (sign _ _)) by (apply nonempty_of_length, length_sign).
  rewrite !called_called. unfold called.
  cbn [password saslSession sent subtle_calls response].
  rewrite Hround, Hp.
  rewrite map_xor_zip by (now rewrite !length_sign).
  rewrite !sign_HMAC, !digest_H. cbn [raw_key].
  subst saltedPassword am.
  unfold expected_serverSignature, clientFinal, clientProof, authMessage, serverFirst,
    clientFinalWithoutProof, clientFirstBare, clientKey, storedKey, serverKey, xor_bytes.
  eexists. reflexivity.
Qed.


(** An accepted message is not one the specification's validation rejects. *)
Lemma accepted_not_invalid (clientNonce serverData nonce salt iterationText : jsstring) :
  accepted clientNonce serverData nonce salt iterationText ->
  ~ invalid clientNonce serverData.
Proof.
  intros [W Hr Hs Hi Tn [Hs0 Ts] Ti Tp Tl] Hinv.
  unfold invalid in Hinv. rewrite Hr, Hs, Hi in Hinv.
  destruct Hinv as [[Hn | Hn] | [Hn | Hn]].
  - apply Hn. now apply test_nonce_printable.
  - apply Hn. apply startsWith_prefix in Tp as [suffix ->].
    exists suffix. split; [|reflexivity].
    intros ->. rewrite app_nil_r in Tl. congruence.
  - apply Hn. now apply test_base64_valid.
  - apply Hn. now apply test_iterations_positive_decimal.
Qed.

(** Past the guard, a message is accepted or the method throws one of the
    validation errors and leaves the client as it was. *)
Lemma handle_validation (c : Client) (pw serverData : jsstring) :
  message (saslSession c) = SASLInitialResponse ->
  password c = VString pw ->
  (exists nonce salt iterationText,
     accepted (clientNonce (saslSession c)) serverData nonce salt iterationText)
  \/ (exists e, handleAuthSASLContinue (VString serverData) c = (inl e, c)
                /\ validation_error e = true).
Proof.
  intros Hm Hp.
  unfold handleAuthSASLContinue, mbind, M_bind, get_client. rewrite Hm, Hp.
  destruct (decide (well_formed serverData)) as [W|W].
  2:{ right. exists InvalidAttributePair. now rewrite parse_attrPairs_error. }
  destruct (parse_attrPairs_ok serverData c W) as (o & -> & Lo).
  destruct (attribute (chr "r") serverData) as [nonce|] eqn:Hr.
  2:{ right. exists NonceMissingOrUnprintable.
      rewrite required_error; [auto | now rewrite Lo, Hr]. }
  destruct nonce as [|n0 nonce'].
  { right. exists NonceMissingOrUnprintable.
    rewrite required_error; [auto | rewrite Lo, Hr; auto]. }
  destruct (test_nonce (n0 :: nonce')) eqn:Tn.
  2:{ right. exists NonceMissingOrUnprintable.
      rewrite required_error; [auto | rewrite Lo, Hr; auto]. }
  rewrite (required_ok _ (n0 :: nonce')) by (rewrite ?Lo; auto).
  destruct (attribute (chr "s") serverData) as [salt|] eqn:Hs.
  2:{ right. exists SaltMissingOrNotBase64.
      rewrite required_error; [auto | now rewrite Lo, Hs]. }
  destruct salt as [|s0 salt'].
  { right. exists SaltMissingOrNotBase64.
    rewrite required_error; [auto | rewrite Lo, Hs; auto]. }
  destruct (test_base64 (s0 :: salt')) eqn:Ts.
  2:{ right. exists SaltMissingOrNotBase64.
      rewrite required_error; [auto | rewrite Lo, Hs; auto]. }
  rewrite (required_ok _ (s0 :: salt')) by (rewrite ?Lo; auto).
  destruct (attribute (chr "i") serverData) as [iterationText|] eqn:Hi.
  2:{ right. exists IterationCountMissingOrInvalid.
      rewrite required_error; [auto | now rewrite Lo, Hi]. }
  destruct (test_iterations iterationText) eqn:Ti.
  2:{ right. exists IterationCountMissingOrInvalid.
      rewrite required_error; [auto | rewrite Lo, Hi; auto]. }
  rewrite (required_ok _ iterationText)
    by (rewrite ?Lo; auto using test_iterations_nonempty).
  destruct (startsWith (n0 :: nonce') (clientNonce (saslSession c))) eqn:Tp.
  2:{ right. exists NonceWithoutClientNonce. auto. }
  cbn [negb].
  destruct (Nat.eqb_spec (length (n0 :: nonce')) (length (clientNonce (saslSession c))))
    as [E|Tl].
  { right. exists NonceTooShort. auto. }
  left. exists (n0 :: nonce'), (s0 :: salt'), iterationText.
  constructor; auto.
Qed.

End HandlerFacts.

Section SaltedPasswordClaim.
Import Scram ScramSpec.

#[local] Opaque sign digest utf8_encode buffer_to_base64 buffer_from_base64
  number_to_string parseInt10 lit startsWith.

Lemma utf8_encode_nil : utf8_encode [] = [].
Proof. reflexivity. Qed.

(** With the empty password the provider refuses the first key, after the
    validation. *)
Lemma handle_empty_password (c : Client) (serverData nonce salt iterationText : jsstring) :
  message (saslSession c) = SASLInitialResponse ->
  password c = VString [] ->
  accepted (clientNonce (saslSession c)) serverData nonce salt iterationText ->
  handleAuthSASLContinue (VString serverData) c
  = (inl (ProviderError DataError), called [CallImportKey []] c).
Proof.
  intros Hm Hp [W Hr Hs Hi Tn [Hs0 Ts] Ti Tp Tl].
  destruct (parse_attrPairs_ok serverData c W) as (o & Eo & Lo).
  unfold handleAuthSASLContinue, mbind, M_bind, get_client.
  rewrite Hm, Hp, Eo.
  rewrite (required_ok _ nonce) by (rewrite ?Lo; auto using test_nonce_nonempty).
  rewrite (required_ok _ salt) by (rewrite ?Lo; auto).
  rewrite (required_ok _ iterationText) by (rewrite ?Lo; auto using test_iterations_nonempty).
  rewrite Tp. cbn [negb].
  destruct (Nat.eqb_spec (length nonce) (length (clientNonce (saslSession c)))) as [E|_];
    [contradiction|].
  unfold subtle_importKey at 1. rewrite utf8_encode_nil. reflexivity.
Qed.

(** A call that returns has passed the guard and the validation, with a
    password that is not empty. *)
Lemma handle_returns (msg_data : value) (c c' : Client) (u : unit) :
  handleAuthSASLContinue msg_data c = (inr u, c') ->
  exists pw serverData nonce salt iterationText,
    msg_data = VString serverData
    /\ message (saslSession c) = SASLInitialResponse
    /\ password c = VString pw /\ pw <> []
    /\ accepted (clientNonce (saslSession c)) serverData nonce salt iterationText.
Proof.
  intros Hrun.
  destruct (message (saslSession c)) eqn:Hm.
  2:{ rewrite handle_protocol_error in Hrun; [discriminate | left; congruence]. }
  destruct (password c) as [| | | |pw|] eqn:Hp;
    try (rewrite handle_protocol_error in Hrun;
         [discriminate | right; left; intros s; congruence]).
  destruct msg_data as [| | | |serverData|];
    try (rewrite handle_protocol_error in Hrun;
         [discriminate | right; right; intros s; congruence]).
  destruct (handle_validation c pw serverData Hm Hp)
    as [(nonce & salt & iterationText & A) | (e & E & _)].
  2:{ rewrite E in Hrun. discriminate. }
  exists pw, serverData, nonce, salt, iterationText.
  split; [reflexivity|]. split; [reflexivity|]. split; [reflexivity|].
  split; [|exact A].
  intros ->. rewrite (handle_empty_password c serverData nonce salt iterationText) in Hrun
    by assumption.
  discriminate.
Qed.




End SaltedPasswordClaim.

Section ExchangeClaims.
Import Scram ScramSpec.

#[local] Opaque sign digest utf8_encode buffer_to_base64 buffer_from_base64
  number_to_string parseInt10 lit startsWith.

(** C9.  When the session's tag is not ['SASLInitialResponse'], or the
    password is not a string, or the server data is not a string, the method
    throws [Error('SASL: protocol error')] and leaves the client as it was: no
    call of the provider, nothing sent.  A call that returns leaves the tag
    ['SASLResponse'], so that a second call on the session throws the same
    error. *)
Theorem guard_protocol_error (msg_data : value) (c : Client) :
  (message (saslSession c) <> SASLInitialResponse
   \/ (forall s, password c <> VString s)
   \/ (forall s, msg_data <> VString s) ->
   handleAuthSASLContinue msg_data c = (inl ProtocolError, c)
   /\ error_message ProtocolError = "SASL: protocol error"%string)
  /\ (forall (c' : Client) (u : unit) (again : value),
        handleAuthSASLContinue msg_data c = (inr u, c') ->
        message (saslSession c') = SASLResponse
        /\ handleAuthSASLContinue again c' = (inl ProtocolError, c')).
Proof.
  split.
  - intros H. split; [now apply handle_protocol_error | reflexivity].
  - intros c' u again Hrun.
    destruct (handle_returns _ _ _ _ Hrun)
      as (pw & serverData & nonce & salt & iterationText & -> & Hm & Hp & Hpw & A).
    destruct (handle_accepted c pw serverData nonce salt iterationText Hm Hp Hpw A)
      as [calls E].
    rewrite E in Hrun. injection Hrun as _ <-.
    split; [reflexivity|].
    apply handle_protocol_error. left. discriminate.
Qed.

(** C3.  A server-first message whose nonce is absent, unprintable or does
    not extend the client nonce, whose salt is absent or not base64, or whose
    iteration count is absent or not a positive decimal integer makes the
    method throw and leave the client as it was: no call of the provider,
    nothing sent, the session untouched.  Past the guard of line 95 the error
    is one of the validation errors. *)
Theorem invalid_server_first_throws (c : Client) (serverData : jsstring) :
  invalid (clientNonce (saslSession c)) serverData ->
  exists e,
    handleAuthSASLContinue (VString serverData) c = (inl e, c)
    /\ (message (saslSession c) = SASLInitialResponse ->
        (exists pw, password c = VString pw) ->
        validation_error e = true).
Proof.
  intros Hinv.
  destruct (message (saslSession c)) eqn:Hm.
  2:{ exists ProtocolError. split; [|discriminate].
      apply handle_protocol_error. left. congruence. }
  destruct (password c) as [| | | |pw|] eqn:Hp;
    try (exists ProtocolError; split;
         [apply handle_protocol_error; right; left; intros s; congruence
         | intros _ [pw' Hpw']; discriminate]).
  destruct (handle_validation c pw serverData Hm Hp)
    as [(nonce & salt & iterationText & A) | (e & E & V)].
  - destruct (accepted_not_invalid _ _ _ _ _ A Hinv).
  - exists e. split; [exact E | intros _ _; exact V].
Qed.


Lemma test_iterations_snoc (s : jsstring) (x : N) :
  test_iterations s = true -> is_digit x = true -> test_iterations (s ++ [x]) = true.
Proof.
  destruct s as [|c r]; [discriminate|]. simpl.
  rewrite forallb_app. simpl. intros H ->.
  apply andb_true_iff in H as [-> ->]. reflexivity.
Qed.

(** The numeral of a positive integer matches [/^[1-9][0-9]*$/]. *)
Lemma positive_decimal_test (text : jsstring) :
  positive_decimal text -> test_iterations text = true.
Proof.
  intros (n & Hn & ->). revert Hn.
  induction (N.lt_wf_0 n) as [n _ IH]. intros Hn.
  destruct (N.lt_ge_cases n 10) as [Hlt|Hge].
  - rewrite number_to_string_digit by exact Hlt.
    unfold test_iterations, in_range, chr. simpl forallb. rewrite andb_true_r.
    apply andb_true_iff. split; apply N.leb_le; simpl; lia.
  - rewrite (N.div_mod' n 10).
    assert (n mod 10 < 10) by (apply N.mod_lt; lia).
    assert (1 <= n / 10) by (apply N.div_le_lower_bound; lia).
    rewrite number_to_string_snoc by assumption.
    apply test_iterations_snoc.
    + apply IH; [apply N.div_lt; lia | assumption].
    + apply is_digit_spec. change (chr "0") with 48.
      revert H0. generalize (n mod 10). intros d Hd. lia.
Qed.

(** The example message is accepted. *)
Lemma accepted_server_first0 :
  accepted (clientNonce ScramExamples.session0) ScramExamples.server_first0
    ScramExamples.nonce0 ScramExamples.salt0 (lit "2").
Proof.
  constructor; try (vm_compute; reflexivity).
  - unfold well_formed. vm_compute. repeat constructor.
  - split; [discriminate | vm_compute; reflexivity].
  - vm_compute. lia.
Qed.

Lemma accepted_server_first_reordered :
  accepted (clientNonce ScramExamples.session0) ScramExamples.server_first_reordered
    ScramExamples.nonce0 ScramExamples.salt0 (lit "2").
Proof.
  constructor; try (vm_compute; reflexivity).
  - unfold well_formed. vm_compute. repeat constructor.
  - split; [discriminate | vm_compute; reflexivity].
  - vm_compute. lia.
Qed.

Lemma guard_protocol_error_witness :
  (handleAuthSASLContinue (VString ScramExamples.server_first0) ScramExamples.client_done
   = (inl ProtocolError, ScramExamples.client_done)
   /\ error_message ProtocolError = "SASL: protocol error"%string)
  /\ (let c' :=
         snd (handleAuthSASLContinue (VString ScramExamples.server_first0)
                ScramExamples.client0) in
       message (saslSession c') = SASLResponse
       /\ handleAuthSASLContinue (VString ScramExamples.server_first0) c'
          = (inl ProtocolError, c')).
Proof.
  split.
  - apply (proj1 (guard_protocol_error (VString ScramExamples.server_first0)
                    ScramExamples.client_done)).
    left. simpl. discriminate.
  - destruct (handle_accepted ScramExamples.client0 (lit "pencil")
                ScramExamples.server_first0 ScramExamples.nonce0 ScramExamples.salt0
                (lit "2") eq_refl eq_refl ltac:(discriminate) accepted_server_first0)
      as [calls E].
    exact (proj2 (guard_protocol_error (VString ScramExamples.server_first0)
                    ScramExamples.client0)
             _ tt (VString ScramExamples.server_first0)
             (eq_trans E (f_equal (pair (inr tt)) (eq_sym (f_equal snd E))))).
Defined.

Lemma invalid_server_first_throws_witness :
  exists e,
    handleAuthSASLContinue (VString ScramExamples.server_first_bad_count)
      ScramExamples.client0
    = (inl e, ScramExamples.client0)
    /\ (message (saslSession ScramExamples.client0) = SASLInitialResponse ->
        (exists pw, password ScramExamples.client0 = VString pw) ->
        validation_error e = true).
Proof.
  apply (invalid_server_first_throws ScramExamples.client0
           ScramExamples.server_first_bad_count).
  right. right.
  change (~ positive_decimal (lit "4k")).
  intros P. apply positive_decimal_test in P. vm_compute in P. discriminate P.
Defined.


(** C2, as the code has it.  On an accepted message and a non-empty
    password the method returns and hands one message to the connection:
    [clientFinalWithoutProof + ",p=" + clientProof], where [clientProof =
    base64(clientKey XOR HMAC(storedKey, authMessage))] and [authMessage]
    joins, with commas, ["n=*,r=" + clientNonce], the server-first message as
    rebuilt from the parsed attributes (["r=" + nonce + ",s=" + salt + ",i=" +
    iterations]) and ["c=biws,r=" + nonce].  The rebuilt message is the
    received one when that has exactly these three attributes in this
    order. *)
Theorem final_message_of_step (c : Client)
  (pw serverData nonce salt iterationText : jsstring) :
  message (saslSession c) = SASLInitialResponse ->
  password c = VString pw ->
  pw <> [] ->
  accepted (clientNonce (saslSession c)) serverData nonce salt iterationText ->
  let saltedPassword :=
    Hi (utf8_encode pw) (buffer_from_base64 salt) (N.to_nat (parseInt10 iterationText)) in
  let am :=
    authMessage (clientNonce (saslSession c)) (serverFirst nonce salt iterationText) nonce in
  exists c',
    handleAuthSASLContinue (VString serverData) c = (inr tt, c')
    /\ sent c'
       = sent c ++ [clientFinalWithoutProof nonce ++ lit ",p=" ++ clientProof saltedPassword am]
    /\ response (saslSession c')
       = clientFinalWithoutProof nonce ++ lit ",p=" ++ clientProof saltedPassword am
    /\ (serverData = serverFirst nonce salt iterationText ->
        am = authMessage (clientNonce (saslSession c)) serverData nonce).
Proof.
  intros Hm Hp Hpw A saltedPassword am.
  destruct (handle_accepted c pw serverData nonce salt iterationText Hm Hp Hpw A)
    as [calls E].
  eexists. split; [exact E|]. cbn [sent saslSession response].
  split; [reflexivity|]. split; [reflexivity|].
  intros ->. reflexivity.
Qed.

Lemma final_message_of_step_witness :
  let saltedPassword :=
    Hi (utf8_encode (lit "pencil")) (buffer_from_base64 ScramExamples.salt0)
       (N.to_nat (parseInt10 (lit "2"))) in
  let am :=
    authMessage (clientNonce ScramExamples.session0)
      (serverFirst ScramExamples.nonce0 ScramExamples.salt0 (lit "2")) ScramExamples.nonce0 in
  exists c',
    handleAuthSASLContinue (VString ScramExamples.server_first_reordered)
      ScramExamples.client0 = (inr tt, c')
    /\ sent c'
       = [] ++ [clientFinalWithoutProof ScramExamples.nonce0 ++ lit ",p="
                ++ clientProof saltedPassword am]
    /\ response (saslSession c')
       = clientFinalWithoutProof ScramExamples.nonce0 ++ lit ",p="
         ++ clientProof saltedPassword am
    /\ (ScramExamples.server_first_reordered
        = serverFirst ScramExamples.nonce0 ScramExamples.salt0 (lit "2") ->
        am = authMessage (clientNonce ScramExamples.session0)
               ScramExamples.server_first_reordered ScramExamples.nonce0).
Proof.
  apply (final_message_of_step ScramExamples.client0 (lit "pencil")
           ScramExamples.server_first_reordered ScramExamples.nonce0 ScramExamples.salt0
           (lit "2")).
  - reflexivity.
  - reflexivity.
  - vm_compute. discriminate.
  - exact accepted_server_first_reordered.
Defined.

(** C2 as stated fails on a message with the attributes in another order:
    the method's message is not the one computed from the received
    server-first message. *)
Lemma final_message_not_from_received :
  sent (snd (handleAuthSASLContinue (VString ScramExamples.server_first_reordered)
               ScramExamples.client0))
  = [lit "c=biws,r=fyko+d2lbbFgONRv9qkxdawL,p=Ex+6GpjTdBaWM1+dqTtxKRu7sWs9RzwYVbMg2uBNfLQ="]
  /\ clientFinal
       (Hi (utf8_encode (lit "pencil")) (buffer_from_base64 ScramExamples.salt0) 2)
       (authMessage (clientNonce ScramExamples.session0)
          ScramExamples.server_first_reordered ScramExamples.nonce0)
       ScramExamples.nonce0
     = lit "c=biws,r=fyko+d2lbbFgONRv9qkxdawL,p=a6QNdOC7617Fr+o+6j4YWuCO23Ce84QJfXAS3d0MgV4=".
Proof. split; vm_compute; reflexivity. Qed.



End ExchangeClaims.

Section EmitterFacts.
Import Connect.

Lemma listeners_register (r : Registration) (ev ev' : string) (c : Client) :
  listeners ev' (register r ev c)
  = if decide (ev = ev') then listeners ev c ++ [r] else listeners ev' c.
Proof.
  unfold listeners at 1, register, with_events. cbn [events].
  rewrite lookup_insert. destruct (decide (ev = ev')) as [->|]; reflexivity.
Qed.

Lemma listeners_unregister (r : Registration) (ev ev' : string) (c : Client) :
  listeners ev' (unregister r ev c)
  = if decide (ev = ev') then remove_first r (listeners ev c) else listeners ev' c.
Proof.
  unfold listeners at 1, unregister, with_events. cbn [events].
  rewrite lookup_insert. destruct (decide (ev = ev')) as [->|]; reflexivity.
Qed.

Lemma listeners_removeAllListeners (ev ev' : string) (c : Client) :
  listeners ev' (removeAllListeners ev c)
  = if decide (ev = ev') then [] else listeners ev' c.
Proof.
  unfold listeners at 1, removeAllListeners, with_events. cbn [events].
  rewrite lookup_delete. destruct (decide (ev = ev')) as [->|]; reflexivity.
Qed.

Lemma effects_register (r : Registration) (ev : string) (c : Client) :
  effects (register r ev c) = effects c.
Proof. reflexivity. Qed.

(** The call of a listener adds its effects, whatever is registered. *)
Lemma effects_call (l : Listener) (c : Client) :
  effects (call l c) = effects c ++ listener_effects l.
Proof.
  destruct l; simpl; try reflexivity.
  - now rewrite app_nil_r.
  - now rewrite <- app_assoc.
Qed.

Lemma effects_dispatch (ev : string) (rs : list Registration) (c : Client) :
  effects (dispatch ev rs c)
  = effects c ++ flat_map (fun r => listener_effects (listener r)) rs.
Proof.
  revert c. induction rs as [|r rs IH]; intros c; simpl.
  - now rewrite app_nil_r.
  - rewrite IH, effects_call. destruct (once r); now rewrite <- app_assoc.
Qed.

(** The effects of an event are those of its listeners, in the order of
    registration. *)
Lemma effects_emit (ev : string) (c : Client) :
  effects (emit ev c)
  = effects c ++ flat_map (fun r => listener_effects (listener r)) (listeners ev c).
Proof. apply effects_dispatch. Qed.

Lemma effects_emit_all_prefix (evs : list string) (c : Client) :
  effects c `prefix_of` effects (emit_all evs c).
Proof.
  revert c. induction evs as [|ev evs IH]; intros c; simpl; [reflexivity|].
  etransitivity; [|apply IH]. rewrite effects_emit. now apply prefix_app_r.
Qed.

(** An event leaves the listeners of another event as they are, unless one
    of its listeners registers there. *)
Lemma listeners_dispatch_other (ev ev' : string) (rs : list Registration) (c : Client) :
  ev <> ev' ->
  Forall (fun r => listener r = ReinstallReadyForQuery -> ev' <> "readyForQuery"%string) rs ->
  listeners ev' (dispatch ev rs c) = listeners ev' c.
Proof.
  intros Hne H. revert c. induction H as [|r rs Hr _ IH]; intros c; [reflexivity|].
  simpl. rewrite IH.
  assert (forall c0, listeners ev' (call (listener r) c0) = listeners ev' c0) as Hcall.
  { intros c0. destruct (listener r) eqn:El; try reflexivity.
    unfold call, on. rewrite listeners_register.
    destruct (decide ("readyForQuery"%string = ev')) as [<-|]; [|reflexivity].
    now destruct (Hr eq_refl). }
  rewrite Hcall. destruct (once r); [|reflexivity].
  rewrite listeners_unregister. now destruct (decide (ev = ev')).
Qed.

End EmitterFacts.

Section ConnectClaims.
Import Connect.

Lemma connectEvent_register (r : Registration) (ev : string) (c : Client) :
  connectEvent (register r ev c) = connectEvent c.
Proof. reflexivity. Qed.

Lemma connectEvent_removeAllListeners (ev : string) (c : Client) :
  connectEvent (removeAllListeners ev c) = connectEvent c.
Proof. reflexivity. Qed.

Ltac rewrite_config :=
  repeat match goal with
         | H : pipelineConnect _ = _ |- _ => rewrite H
         | H : pipelineTLS _ = _ |- _ => rewrite H
         | H : ssl _ = _ |- _ => rewrite H
         end.

Ltac listeners_of_connect :=
  unfold connect_pipelining, on, once_;
  cbv zeta; rewrite_config; cbv beta iota delta [andb negb];
  repeat first [rewrite connectEvent_register | rewrite connectEvent_removeAllListeners];
  unfold connectEvent; rewrite_config;
  repeat first
    [ rewrite listeners_register
    | rewrite listeners_removeAllListeners
    | rewrite effects_register ];
  repeat case_decide; try discriminate; try reflexivity; try contradiction.

Lemma effects_connect_pipelining (s : Client) :
  effects (connect_pipelining s) = effects s.
Proof.
  unfold connect_pipelining.
  destruct (pipelineTLS (neonConfig s)), (ssl s), (pipelineConnect (neonConfig s));
    reflexivity.
Qed.

(** With [pipelineConnect = 'password']: the listeners [connect] leaves. *)
Lemma listeners_pipelined (s : Client) :
  pipelineConnect (neonConfig s) = Password ->
  listeners "authenticationCleartextPassword" (connect_pipelining s) = []
  /\ listeners "readyForQuery" (connect_pipelining s)
     = [{| once := true; listener := ReinstallReadyForQuery |}]
  /\ listeners (connectEvent s) (connect_pipelining s)
     = listeners (connectEvent s) s ++ [{| once := false; listener := PipelinedStartup |}].
Proof.
  intros Hc.
  destruct (ssl s) eqn:Hssl, (pipelineTLS (neonConfig s)) eqn:Htls;
    (split; [|split]); listeners_of_connect.
Qed.

(** With [pipelineConnect = false]: these listeners are the inherited ones. *)
Lemma listeners_unpipelined (s : Client) :
  pipelineConnect (neonConfig s) = Off ->
  listeners "authenticationCleartextPassword" (connect_pipelining s)
  = listeners "authenticationCleartextPassword" s
  /\ listeners "readyForQuery" (connect_pipelining s) = listeners "readyForQuery" s
  /\ listeners (connectEvent s) (connect_pipelining s) = listeners (connectEvent s) s.
Proof.
  intros Hc.
  destruct (ssl s) eqn:Hssl, (pipelineTLS (neonConfig s)) eqn:Htls;
    (split; [|split]); listeners_of_connect.
Qed.

Lemma inherited_only_listeners (c : Client) (ev : string) :
  inherited_only c ->
  Forall (fun r => inherited_listener (listener r) = true) (listeners ev c).
Proof.
  intros H. unfold listeners. destruct (events c !! ev) as [rs|] eqn:E; simpl.
  - exact (H ev rs E).
  - constructor.
Qed.

(** An event whose only listener is the once-only reinstaller: nothing is
    called, and the listener left is [_handleReadyForQuery]. *)
Lemma emit_reinstall (c : Client) :
  listeners "readyForQuery" c = [{| once := true; listener := ReinstallReadyForQuery |}] ->
  effects (emit "readyForQuery" c) = effects c
  /\ listeners "readyForQuery" (emit "readyForQuery" c)
     = [{| once := false; listener := Bound "_handleReadyForQuery" |}].
Proof.
  intros H. unfold emit. rewrite H. cbn [dispatch once listener call].
  split; [reflexivity|].
  unfold on. rewrite listeners_register, decide_True by reflexivity.
  rewrite listeners_unregister, decide_True by reflexivity.
  rewrite H. cbn [remove_first]. rewrite decide_True by reflexivity. reflexivity.
Qed.

(** An event whose only listener is a bound method: the method is called and
    the listeners stay. *)
Lemma emit_bound (ev method : string) (c : Client) :
  listeners ev c = [{| once := false; listener := Bound method |}] ->
  emit ev c = effect [Called method] c.
Proof. intros H. unfold emit. rewrite H. reflexivity. Qed.

Lemma emit_all_bound (ev method : string) (n : nat) (c : Client) :
  listeners ev c = [{| once := false; listener := Bound method |}] ->
  effects (emit_all (replicate n ev) c) = effects c ++ replicate n (Called method).
Proof.
  revert c. induction n as [|n IH]; intros c H; simpl.
  - now rewrite app_nil_r.
  - rewrite (emit_bound _ _ _ H). rewrite IH by exact H.
    cbn [effects effect]. now rewrite <- app_assoc.
Qed.

(** C7.  With [pipelineTLS] set and SSL enabled on the Postgres connection,
    [connect] registers on the connect event, after the inherited listeners,
    one that emits the data ['S'] on the stream: the connect event itself puts
    the server's SSL acceptance into the stream's data, with nothing read
    from the wire, and that answer starts TLS. *)
Theorem tls_pipelining_fakes_ssl_support (super_connect : Client -> Client) (this : Client) :
  let s := super_connect (connect_warnings this) in
  pipelineTLS (neonConfig s) = true ->
  ssl s = true ->
  let c := connect super_connect this in
  listeners "connect" c
  = listeners "connect" s ++ [{| once := false; listener := FakeSslSupport |}]
  /\ effects (emit "connect" c)
     = effects (emit "connect" s) ++ [StreamEmitted "data" (lit "S")]
  /\ ssl_response (lit "S") = StartTls.
Proof.
  intros s Htls Hssl c.
  assert (listeners "connect" c
          = listeners "connect" s ++ [{| once := false; listener := FakeSslSupport |}]) as L.
  { unfold c, connect. fold s.
    destruct (pipelineConnect (neonConfig s)) eqn:Hc; listeners_of_connect. }
  split; [exact L|]. split; [|reflexivity].
  rewrite !effects_emit, L, flat_map_app. unfold c, connect. fold s.
  rewrite effects_connect_pipelining. cbn [flat_map listener listener_effects].
  now rewrite app_nil_r, app_assoc.
Qed.

Lemma inherited_only_pg_password :
  inherited_only (pg_connect (connect_warnings client_password)).
Proof. unfold inherited_only. apply (bool_decide_unpack _). vm_compute. exact I. Qed.

Lemma tls_pipelining_fakes_ssl_support_witness :
  listeners "connect" (connect pg_connect client_tls)
  = listeners "connect" (pg_connect (connect_warnings client_tls))
    ++ [{| once := false; listener := FakeSslSupport |}]
  /\ effects (emit "connect" (connect pg_connect client_tls))
     = effects (emit "connect" (pg_connect (connect_warnings client_tls)))
       ++ [StreamEmitted "data" (lit "S")]
  /\ ssl_response (lit "S") = StartTls.
Proof.
  apply (tls_pipelining_fakes_ssl_support pg_connect client_tls); reflexivity.
Defined.

(** C5, as the code has it.  Whether the startup is pipelined is decided by
    the configuration alone.  With [pipelineConnect = 'password'], [connect]
    takes the listeners for the cleartext-password request and for
    ready-for-query off and the connect event ([sslconnect] under SSL) calls
    [_handleAuthCleartextPassword] and [_handleReadyForQuery], whatever events
    follow; with [pipelineConnect = false] these listeners and the connect
    event are the inherited ones. *)
Theorem startup_pipelining_by_configuration (super_connect : Client -> Client)
  (this : Client) :
  let s := super_connect (connect_warnings this) in
  let c := connect super_connect this in
  match pipelineConnect (neonConfig s) with
  | Password =>
      listeners "authenticationCleartextPassword" c = []
      /\ listeners "readyForQuery" c
         = [{| once := true; listener := ReinstallReadyForQuery |}]
      /\ listeners (connectEvent s) c
         = listeners (connectEvent s) s
           ++ [{| once := false; listener := PipelinedStartup |}]
      /\ forall later : list string,
           (effects (emit (connectEvent s) s)
            ++ [Called "_handleAuthCleartextPassword"; Called "_handleReadyForQuery"])
           `prefix_of` effects (emit_all (connectEvent s :: later) c)
  | Off =>
      listeners "authenticationCleartextPassword" c
      = listeners "authenticationCleartextPassword" s
      /\ listeners "readyForQuery" c = listeners "readyForQuery" s
      /\ listeners (connectEvent s) c = listeners (connectEvent s) s
      /\ effects (emit (connectEvent s) c) = effects (emit (connectEvent s) s)
  end.
Proof.
  intros s c. unfold c, connect. fold s.
  destruct (pipelineConnect (neonConfig s)) eqn:Hc.
  - destruct (listeners_pipelined s Hc) as (L1 & L2 & L3).
    repeat split; try assumption.
    intros later. cbn [emit_all fold_left].
    etransitivity; [|apply effects_emit_all_prefix].
    rewrite !effects_emit, L3, flat_map_app, effects_connect_pipelining.
    cbn [flat_map listener listener_effects]. rewrite app_nil_r, app_assoc.
    reflexivity.
  - destruct (listeners_unpipelined s Hc) as (L1 & L2 & L3).
    repeat split; try assumption.
    now rewrite !effects_emit, L3, effects_connect_pipelining.
Qed.

(** C5 as stated fails: the server demands SASL, and the password message
    and the ready-for-query have been synthesized on the connect event all
    the same. *)
Lemma pipelining_engages_before_sasl :
  effects (emit_all ["connect"; "authenticationSASL"]%string
             (connect pg_connect client_password))
  = [Ran "startup"; Called "_handleAuthCleartextPassword"; Called "_handleReadyForQuery";
     Called "_handleAuthSASL"].
Proof. vm_compute. reflexivity. Qed.

(** C6, as the code has it.  On a pipelined startup the connect event
    ([sslconnect] under SSL) adds to what the inherited listeners do one call
    of [_handleAuthCleartextPassword] and one of [_handleReadyForQuery].  The
    listener for ready-for-query is then still the once-only one that
    reinstalls the normal handler: the first ready-for-query of the server
    calls nothing and leaves [_handleReadyForQuery] registered, and each
    ready-for-query after it calls [_handleReadyForQuery] once. *)
Theorem ready_for_query_assumed_once (super_connect : Client -> Client) (this : Client)
  (n : nat) :
  let s := super_connect (connect_warnings this) in
  pipelineConnect (neonConfig s) = Password ->
  inherited_only s ->
  let c1 := emit (connectEvent s) (connect super_connect this) in
  let c2 := emit "readyForQuery" c1 in
  effects c1
  = effects (emit (connectEvent s) s)
    ++ [Called "_handleAuthCleartextPassword"; Called "_handleReadyForQuery"]
  /\ listeners "readyForQuery" c1
     = [{| once := true; listener := ReinstallReadyForQuery |}]
  /\ effects c2 = effects c1
  /\ listeners "readyForQuery" c2
     = [{| once := false; listener := Bound "_handleReadyForQuery" |}]
  /\ effects (emit_all (replicate n "readyForQuery"%string) c2)
     = effects c2 ++ replicate n (Called "_handleReadyForQuery").
Proof.
  intros s Hc Hinh c1 c2.
  destruct (listeners_pipelined s Hc) as (_ & L2 & L3).
  assert (listeners "readyForQuery" c1
          = [{| once := true; listener := ReinstallReadyForQuery |}]) as R1.
  { unfold c1, connect, emit. fold s.
    rewrite listeners_dispatch_other; [exact L2 | |].
    - unfold connectEvent. destruct (ssl s); discriminate.
    - rewrite L3. apply Forall_app. split.
      + eapply Forall_impl; [apply (inherited_only_listeners s _ Hinh)|].
        intros r Hr E. simpl in Hr. rewrite E in Hr. discriminate.
      + repeat constructor. discriminate. }
  destruct (emit_reinstall c1 R1) as [E2 R2].
  split.
  { unfold c1, connect. fold s.
    rewrite !effects_emit, L3, flat_map_app, effects_connect_pipelining.
    cbn [flat_map listener listener_effects]. now rewrite app_nil_r, app_assoc. }
  split; [exact R1|]. split; [exact E2|]. split; [exact R2|].
  now apply emit_all_bound.
Qed.

Lemma ready_for_query_assumed_once_witness :
  let s := pg_connect (connect_warnings client_password) in
  let c1 := emit (connectEvent s) (connect pg_connect client_password) in
  let c2 := emit "readyForQuery" c1 in
  effects c1
  = effects (emit (connectEvent s) s)
    ++ [Called "_handleAuthCleartextPassword"; Called "_handleReadyForQuery"]
  /\ listeners "readyForQuery" c1
     = [{| once := true; listener := ReinstallReadyForQuery |}]
  /\ effects c2 = effects c1
  /\ listeners "readyForQuery" c2
     = [{| once := false; listener := Bound "_handleReadyForQuery" |}]
  /\ effects (emit_all (replicate 3 "readyForQuery"%string) c2)
     = effects c2 ++ replicate 3 (Called "_handleReadyForQuery").
Proof.
  apply (ready_for_query_assumed_once pg_connect client_password 3).
  - reflexivity.
  - exact inherited_only_pg_password.
Defined.

(** C6 as stated fails: after the synthesized ready-for-query the normal
    handler is not registered, and the next ready-for-query of the server
    calls nothing. *)
Lemma first_ready_for_query_not_handled :
  let c1 := emit "connect" (connect pg_connect client_password) in
  effects c1
  = [Ran "startup"; Called "_handleAuthCleartextPassword"; Called "_handleReadyForQuery"]
  /\ listeners "readyForQuery" c1
     = [{| once := true; listener := ReinstallReadyForQuery |}]
  /\ effects (emit "readyForQuery" c1) = effects c1.
Proof. vm_compute. repeat split. Qed.

End ConnectClaims.

Section HttpQueryClaims.
Import HttpQuery.
Context {V : Type}.

Lemma object_of_list_to_map (ps : list (string * V)) :
  fold_left (fun o p => <[fst p := snd p]> o) ps (∅ : gmap string V)
  = list_to_map (reverse ps).
Proof.
  induction ps as [|p ps IH] using rev_ind; [reflexivity|].
  rewrite fold_left_app, reverse_snoc. simpl. rewrite IH. now destruct p.
Qed.

Lemma fst_zip_sublist (names : list string) (row : list V) :
  (zip names row).*1 `sublist_of` names.
Proof.
  revert row. induction names as [|x names IH]; intros row; [constructor|].
  destruct row as [|y row]; simpl.
  - apply sublist_nil_l.
  - apply sublist_skip, IH.
Qed.

(** With distinct column names, the object of a row has each column's value
    under the column's name. *)
Lemma object_of_lookup (names : list string) (row : list V) (i : nat) (name : string) (v : V) :
  NoDup names -> names !! i = Some name -> row !! i = Some v ->
  object_of names row !! name = Some v.
Proof.
  intros Hnd Hn Hv. unfold object_of. rewrite object_of_list_to_map.
  apply elem_of_list_to_map.
  - rewrite fmap_reverse, reverse_Permutation.
    eapply sublist_NoDup; [exact Hnd | apply fst_zip_sublist].
  - apply elem_of_reverse. apply list_elem_of_lookup. exists i.
    apply lookup_zip_with_Some. eauto.
Qed.

(** C8.  An HTTP query result is shaped by the two options, each [false]
    when left out: the rows are positional arrays under [arrayMode] and
    otherwise objects that hold each column's value under the column's name;
    the result is the bare rows, or under [fullResults] the envelope
    [{fields, command, rowCount, rows, rowAsArray}] whose [rowAsArray] is the
    [arrayMode] in force. *)
Theorem query_result_shape (opts : HTTPQueryOptions) (raw : RawResults V) :
  let array_mode := default false (arrayMode opts) in
  exists shaped : list (Row V),
    processQueryResult opts raw
    = (if default false (fullResults opts)
       then Envelope {| fields := raw_fields raw; command := raw_command raw;
                        rowCount := raw_rowCount raw; rows := shaped;
                        rowAsArray := array_mode |}
       else BareRows shaped)
    /\ length shaped = length (raw_rows raw)
    /\ forall (j : nat) (row : list V),
         raw_rows raw !! j = Some row ->
         if array_mode then shaped !! j = Some (ArrayRow row)
         else exists o : gmap string V,
                shaped !! j = Some (ObjectRow o)
                /\ forall (i : nat) (name : string) (v : V),
                     NoDup (raw_fields raw) ->
                     raw_fields raw !! i = Some name -> row !! i = Some v ->
                     o !! name = Some v.
Proof.
  intros array_mode.
  exists (map (shape_row array_mode (raw_fields raw)) (raw_rows raw)).
  split; [unfold processQueryResult; fold array_mode; now destruct (default false _)|].
  split; [apply length_map|].
  intros j row Hj.
  assert (map (shape_row array_mode (raw_fields raw)) (raw_rows raw) !! j
          = Some (shape_row array_mode (raw_fields raw) row)) as E
    by (change (map ?f ?l) with (f <$> l); now rewrite list_lookup_fmap, Hj).
  unfold shape_row in E. destruct array_mode; [exact E|].
  eexists. split; [exact E|].
  intros i name v Hnd Hn Hv. now apply (object_of_lookup _ _ i).
Qed.

End HttpQueryClaims.

Section HttpQueryExamples.
Import HttpQuery.

Lemma query_result_shape_witness :
  let opts := {| arrayMode := None; fullResults := Some true |} in
  let array_mode := default false (arrayMode opts) in
  exists shaped : list (Row N),
    processQueryResult opts select_one
    = (if default false (fullResults opts)
       then Envelope {| fields := raw_fields select_one; command := raw_command select_one;
                        rowCount := raw_rowCount select_one; rows := shaped;
                        rowAsArray := array_mode |}
       else BareRows shaped)
    /\ length shaped = length (raw_rows select_one)
    /\ forall (j : nat) (row : list N),
         raw_rows select_one !! j = Some row ->
         if array_mode then shaped !! j = Some (ArrayRow row)
         else exists o : gmap string N,
                shaped !! j = Some (ObjectRow o)
                /\ forall (i : nat) (name : string) (v : N),
                     NoDup (raw_fields select_one) ->
                     raw_fields select_one !! i = Some name -> row !! i = Some v ->
                     o !! name = Some v.
Proof.
  exact (query_result_shape {| arrayMode := None; fullResults := Some true |} select_one).
Defined.

(** The shapes of [SELECT 1 AS one]: [[{ one: 1 }]] by default, [[[1]]] under
    [arrayMode], and the envelope under [fullResults]. *)
Lemma select_one_shapes :
  processQueryResult {| arrayMode := None; fullResults := None |} select_one
  = BareRows [ObjectRow {[ "one"%string := 1 ]}]
  /\ processQueryResult {| arrayMode := Some true; fullResults := None |} select_one
     = BareRows [ArrayRow [1]]
  /\ processQueryResult {| arrayMode := Some false; fullResults := Some true |} select_one
     = Envelope {| fields := ["one"%string]; command := "SELECT"; rowCount := 1;
                   rows := [ObjectRow {[ "one"%string := 1 ]}]; rowAsArray := false |}.
Proof. repeat split; vm_compute; reflexivity. Qed.

End HttpQueryExamples.

(** * Further facts about the SCRAM step *)

Section Base64Facts.



(** The sixty-four characters of the alphabet: each is in the class of the
    salt's regular expression, is not the padding, and stands for its own
    six bits. *)
Lemma b64_char_spec (v : N) :
  v < 64 ->
  is_b64 (b64_char v) = true /\ (b64_char v =? chr "=") = false
  /\ b64_value (b64_char v) = Some v.
Proof.
  intros Hv.
  assert (forallb (fun n => let v := N.of_nat n in
                     is_b64 (b64_char v) && negb (b64_char v =? chr "=")
                     && bool_decide (b64_value (b64_char v) = Some v))
            (seq 0 64) = true) as Hall by (vm_compute; reflexivity).
  rewrite forallb_forall in Hall.
  specialize (Hall (N.to_nat v)). rewrite N2Nat.id in Hall.
  cbv zeta in Hall.
  rewrite !andb_true_iff, negb_true_iff, bool_decide_eq_true in Hall.
  destruct Hall as [[H1 H2] H3]; [apply in_seq; lia|]. auto.
Qed.

(** The four six-bit values of three bytes, and back. *)
Lemma sextets_of_bytes (x y z : N) :
  x < 256 -> y < 256 -> z < 256 ->
  let a := x / 4 in
  let b := x mod 4 * 16 + y / 16 in
  let c := y mod 16 * 4 + z / 64 in
  let d := z mod 64 in
  (a < 64 /\ b < 64 /\ c < 64 /\ d < 64)
  /\ (a * 4 + b / 16) mod 256 = x
  /\ (b mod 16 * 16 + c / 4) mod 256 = y
  /\ (c mod 4 * 64 + d) mod 256 = z.
Proof.
  intros Hx Hy Hz a b c d. subst a b c d.
  repeat split; zify; Z.to_euclidean_division_equations; lia.
Qed.

Lemma before_padding_char (v : N) (r : jsstring) :
  v < 64 -> before_padding (b64_char v :: r) = b64_char v :: before_padding r.
Proof. intros Hv. cbn [before_padding]. now rewrite (proj1 (proj2 (b64_char_spec v Hv))). Qed.

Lemma omap_b64_value_char (v : N) (r : jsstring) :
  v < 64 -> omap b64_value (b64_char v :: r) = v :: omap b64_value r.
Proof. intros Hv. cbn [omap list_omap]. now rewrite (proj2 (proj2 (b64_char_spec v Hv))). Qed.

Lemma before_padding_pad (r : jsstring) : before_padding (chr "=" :: r) = [].
Proof. reflexivity. Qed.

(** Decoding is the inverse of encoding, and an encoding matches the
    regular expression of the salt. *)
Lemma base64_round_trip (b : bytes) :
  buffer_from_base64 (buffer_to_base64 b) = b
  /\ Scram.test_base64 (buffer_to_base64 b) = true.
Proof.
  remember (length b) as n eqn:Hn. revert b Hn.
  induction n as [n IH] using lt_wf_ind. intros b Hn.
  destruct b as [|x [|y [|z r]]].
  - split; reflexivity.
  - pose proof (Byte.to_N_bounded x) as Hx.
    destruct (sextets_of_bytes (Byte.to_N x) 0 0 ltac:(lia) ltac:(lia) ltac:(lia))
      as ((Ha & Hb & _ & _) & Ex & _ & _).
    cbv zeta in Ha, Hb, Ex.
    change (0 / 16) with 0 in Hb, Ex. rewrite N.add_0_r in Hb, Ex.
    cbn [buffer_to_base64]. cbv zeta. split.
    + unfold buffer_from_base64.
      rewrite !before_padding_char, before_padding_pad, !omap_b64_value_char by assumption.
      cbn [omap list_omap bytes_of_sextets].
      unfold byte_of_N. rewrite Ex. now rewrite Byte.of_to_N.
    + cbn [Scram.test_base64].
      rewrite (proj1 (b64_char_spec _ Ha)), (proj1 (b64_char_spec _ Hb)).
      reflexivity.
  - pose proof (Byte.to_N_bounded x) as Hx. pose proof (Byte.to_N_bounded y) as Hy.
    destruct (sextets_of_bytes (Byte.to_N x) (Byte.to_N y) 0 ltac:(lia) ltac:(lia) ltac:(lia))
      as ((Ha & Hb & Hc & _) & Ex & Ey & _).
    cbv zeta in Ha, Hb, Hc, Ex, Ey.
    change (0 / 64) with 0 in Hc, Ey. rewrite N.add_0_r in Hc, Ey.
    cbn [buffer_to_base64]. cbv zeta. split.
    + unfold buffer_from_base64.
      rewrite !before_padding_char, before_padding_pad, !omap_b64_value_char by assumption.
      cbn [omap list_omap bytes_of_sextets].
      unfold byte_of_N. rewrite Ex, Ey. now rewrite !Byte.of_to_N.
    + cbn [Scram.test_base64].
      rewrite (proj1 (b64_char_spec _ Ha)), (proj1 (b64_char_spec _ Hb)),
        (proj1 (b64_char_spec _ Hc)), (proj1 (proj2 (b64_char_spec _ Hc))).
      reflexivity.
  - pose proof (Byte.to_N_bounded x) as Hx. pose proof (Byte.to_N_bounded y) as Hy.
    pose proof (Byte.to_N_bounded z) as Hz.
    destruct (sextets_of_bytes (Byte.to_N x) (Byte.to_N y) (Byte.to_N z)
                ltac:(lia) ltac:(lia) ltac:(lia))
      as ((Ha & Hb & Hc & Hd) & Ex & Ey & Ez).
    cbv zeta in Ha, Hb, Hc, Hd, Ex, Ey, Ez.
    destruct (IH (length r) ltac:(subst n; simpl; lia) r eq_refl) as [IHd IHt].
    cbn [buffer_to_base64]. cbv zeta. split.
    + unfold buffer_from_base64 in *.
      rewrite !before_padding_char, !omap_b64_value_char by assumption.
      cbn [bytes_of_sextets]. rewrite IHd.
      unfold byte_of_N. rewrite Ex, Ey, Ez. now rewrite !Byte.of_to_N.
    + destruct (buffer_to_base64 r) as [|e r'] eqn:Er.
      * cbn [Scram.test_base64].
        rewrite (proj1 (b64_char_spec _ Ha)), (proj1 (b64_char_spec _ Hb)),
          (proj1 (b64_char_spec _ Hc)), (proj1 (b64_char_spec _ Hd)).
        reflexivity.
      * change (Scram.test_base64 (?a :: ?b :: ?c :: ?d :: e :: r'))
          with (is_b64 a && is_b64 b && is_b64 c && is_b64 d && Scram.test_base64 (e :: r')).
        rewrite (proj1 (b64_char_spec _ Ha)), (proj1 (b64_char_spec _ Hb)),
          (proj1 (b64_char_spec _ Hc)), (proj1 (b64_char_spec _ Hd)), IHt.
        reflexivity.
Qed.





End Base64Facts.

Section MessageFacts.
Import Scram ScramSpec.

(** A string without the separator is one entry, and the first entry of a
    string ends at its first separator. *)
Lemma split_one (sep : N) (a : jsstring) :
  Forall (fun c => c <> sep) a -> split sep a = [a].
Proof.
  induction 1 as [|c a Hc _ IH]; [reflexivity|].
  simpl. apply N.eqb_neq in Hc. now rewrite Hc, IH.
Qed.

Lemma split_first (sep : N) (a b : jsstring) :
  Forall (fun c => c <> sep) a -> split sep (a ++ sep :: b) = a :: split sep b.
Proof.
  induction 1 as [|c a Hc _ IH]; simpl.
  - now rewrite N.eqb_refl.
  - apply N.eqb_neq in Hc. now rewrite Hc, IH.
Qed.

Lemma is_b64_no_comma (c : N) : is_b64 c = true -> c <> chr ",".
Proof. intros H ->. vm_compute in H. discriminate. Qed.

Lemma test_nonce_no_comma (s : jsstring) :
  test_nonce s = true -> Forall (fun c => c <> chr ",") s.
Proof.
  intros H. apply test_nonce_printable in H as [_ H].
  eapply Forall_impl; [exact H|]. intros c [_ Hc]. exact Hc.
Qed.

Lemma test_base64_no_comma (s : jsstring) :
  test_base64 s = true -> Forall (fun c => c <> chr ",") s.
Proof.
  intros H. apply test_base64_valid in H as (body & padding & -> & Hb & Hp & _).
  apply Forall_app. split.
  - eapply Forall_impl; [exact Hb|]. intros c. apply is_b64_no_comma.
  - destruct Hp as [-> | [-> | ->]]; repeat constructor; discriminate.
Qed.

Lemma test_iterations_no_comma (s : jsstring) :
  test_iterations s = true -> Forall (fun c => c <> chr ",") s.
Proof.
  destruct s as [|c r]; [discriminate|]. simpl.
  intros H. apply andb_true_iff in H as [Hc Hr].
  constructor.
  - intros ->. vm_compute in Hc. discriminate.
  - rewrite forallb_forall in Hr. apply Forall_forall. intros x Hx ->.
    apply list_elem_of_In, Hr in Hx. vm_compute in Hx. discriminate.
Qed.

(** A server-first message built of a nonce, a salt and a count that pass
    the checks is accepted, with these as its attributes. *)
Lemma accepted_serverFirst (clientNonce nonce salt iterationText : jsstring) :
  test_nonce nonce = true ->
  salt <> [] -> test_base64 salt = true ->
  test_iterations iterationText = true ->
  startsWith nonce clientNonce = true ->
  length nonce <> length clientNonce ->
  accepted clientNonce (serverFirst nonce salt iterationText) nonce salt iterationText.
Proof.
  intros Tn Hs Ts Ti Tp Tl.
  assert (split (chr ",") (serverFirst nonce salt iterationText)
          = [lit "r=" ++ nonce; lit "s=" ++ salt; lit "i=" ++ iterationText]) as E.
  { unfold serverFirst.
    change (lit "r=" ++ nonce ++ lit ",s=" ++ salt ++ lit ",i=" ++ iterationText)
      with ((lit "r=" ++ nonce) ++ chr "," :: (lit "s=" ++ salt) ++ chr ","
            :: (lit "i=" ++ iterationText)) at 1.
    rewrite split_first.
    2:{ apply Forall_app. split; [repeat constructor; discriminate|].
        now apply test_nonce_no_comma. }
    rewrite split_first.
    2:{ apply Forall_app. split; [repeat constructor; discriminate|].
        now apply test_base64_no_comma. }
    rewrite split_one; [reflexivity|].
    apply Forall_app. split; [repeat constructor; discriminate|].
    now apply test_iterations_no_comma. }
  constructor; try assumption; unfold well_formed, attribute; rewrite ?E.
  - repeat constructor.
  - reflexivity.
  - reflexivity.
  - reflexivity.
  - now split.
Qed.

End MessageFacts.

Section StepFacts.
Import Scram ScramSpec ScramCalls.

#[local] Opaque sign digest utf8_encode buffer_to_base64 buffer_from_base64
  number_to_string parseInt10 lit startsWith.

Lemma count_app (kind : SubtleCall -> bool) (l1 l2 : list SubtleCall) :
  count kind (l1 ++ l2) = (count kind l1 + count kind l2)%nat.
Proof. unfold count. now rewrite List.filter_app, length_app. Qed.

Lemma count_sign_map (key : CryptoKey) (l : list bytes) :
  count is_sign (map (CallSign key) l) = length l
  /\ count is_importKey (map (CallSign key) l) = 0%nat
  /\ count is_digest (map (CallSign key) l) = 0%nat.
Proof.
  unfold count. induction l as [|x l (IH1 & IH2 & IH3)]; [now repeat split|].
  simpl. rewrite IH1. now repeat split.
Qed.

(** X1.  The cost of a step on an accepted message, with a password that is
    not empty: the provider is called [iterations + 10] times, [importKey]
    five times, [sign] [iterations + 4] times and [digest] once. *)
Theorem provider_calls_of_step (c : Client) (pw serverData nonce salt iterationText : jsstring) :
  message (saslSession c) = SASLInitialResponse ->
  password c = VString pw ->
  pw <> [] ->
  accepted (clientNonce (saslSession c)) serverData nonce salt iterationText ->
  exists calls,
    subtle_calls (snd (handleAuthSASLContinue (VString serverData) c))
    = subtle_calls c ++ calls
    /\ count is_importKey calls = 5%nat
    /\ count is_sign calls = (N.to_nat (parseInt10 iterationText) + 4)%nat
    /\ count is_digest calls = 1%nat
    /\ length calls = (N.to_nat (parseInt10 iterationText) + 10)%nat.
Proof.
  intros Hm Hp Hpw [W Hr Hs Hit Tn [Hs0 Ts] Ti Tp Tl].
  destruct (number_to_string_parseInt10 _ Ti) as [Hge Hround].
  destruct (parse_attrPairs_ok serverData c W) as (o & Eo & Lo).
  unfold handleAuthSASLContinue, mbind, M_bind, get_client.
  rewrite Hm, Hp, Eo.
  rewrite (required_ok _ nonce) by (rewrite ?Lo; auto using test_nonce_nonempty).
  rewrite (required_ok _ salt) by (rewrite ?Lo; auto).
  rewrite (required_ok _ iterationText) by (rewrite ?Lo; auto using test_iterations_nonempty).
  rewrite Tp. cbn [negb].
  destruct (Nat.eqb_spec (length nonce) (length (clientNonce (saslSession c)))) as [E|_];
    [contradiction|].
  unfold subtle_importKey at 1.
  rewrite (importKey_nonempty (utf8_encode pw)) by now apply utf8_encode_nonempty.
  rewrite derive_saltedPassword_run by exact Hge.
  cbn [raw_key].
  set (saltedPassword := Hi (utf8_encode pw) (buffer_from_base64 salt)
                           (N.to_nat (parseInt10 iterationText))).
  unfold subtle_importKey, subtle_sign, subtle_digest, set_session, sendSCRAMClientFinalMessage.
  assert (saltedPassword <> []) as Hsp
    by (apply nonempty_of_length, length_Hi; lia).
  rewrite !(importKey_nonempty saltedPassword) by exact Hsp.
  rewrite (importKey_nonempty (digest _)) by (apply nonempty_of_length, length_sha256).
  rewrite (importKey_nonempty (sign _ _)) by (apply nonempty_of_length, length_sign).
  rewrite !called_called. unfold called.
  cbn [password saslSession sent subtle_calls response snd].
  eexists. split; [reflexivity|].
  rewrite !count_app, !length_app.
  destruct (count_sign_map {| raw_key := utf8_encode pw |}
              (take (N.to_nat (parseInt10 iterationText))
                 ((buffer_from_base64 salt ++ [x00; x00; x00; x01])
                  :: rounds (utf8_encode pw) (buffer_from_base64 salt ++ [x00; x00; x00; x01])
                       (N.to_nat (parseInt10 iterationText))))) as (C1 & C2 & C3).
  rewrite C1, C2, C3, length_map, length_take. cbn [length]. rewrite length_rounds.
  unfold count. cbn [List.filter is_importKey is_sign is_digest length].
  repeat split; lia.
Qed.

Lemma provider_calls_of_step_witness :
  exists calls,
    subtle_calls (snd (handleAuthSASLContinue (VString ScramExamples.server_first0)
                         ScramExamples.client0))
    = subtle_calls ScramExamples.client0 ++ calls
    /\ count is_importKey calls = 5%nat
    /\ count is_sign calls = (N.to_nat (parseInt10 (lit "2")) + 4)%nat
    /\ count is_digest calls = 1%nat
    /\ length calls = (N.to_nat (parseInt10 (lit "2")) + 10)%nat.
Proof.
  apply (provider_calls_of_step ScramExamples.client0 (lit "pencil")
           ScramExamples.server_first0 ScramExamples.nonce0 ScramExamples.salt0 (lit "2")).
  - reflexivity.
  - reflexivity.
  - discriminate.
  - exact accepted_server_first0.
Defined.

(** X2.  A call that throws has changed neither the session nor the password
    nor the messages sent: the session is written and the message handed
    over only at the end (lines 148-152).  The client is as it was
    altogether, unless the provider has refused the key of an empty password,
    after one call of [importKey]. *)
Theorem throw_leaves_session (msg_data : value) (c c' : Client) (e : Error) :
  handleAuthSASLContinue msg_data c = (inl e, c') ->
  saslSession c' = saslSession c /\ sent c' = sent c /\ password c' = password c
  /\ (c' = c
      \/ (e = ProviderError DataError /\ password c = VString []
          /\ subtle_calls c' = subtle_calls c ++ [CallImportKey []])).
Proof.
  intros Hrun.
  assert (forall c0 : Client, c0 = c ->
            saslSession c0 = saslSession c /\ sent c0 = sent c /\ password c0 = password c
            /\ (c0 = c
                \/ (e = ProviderError DataError /\ password c = VString []
                    /\ subtle_calls c0 = subtle_calls c ++ [CallImportKey []]))) as Hsame
    by (intros c0 ->; auto).
  destruct (message (saslSession c)) eqn:Hm.
  2:{ rewrite handle_protocol_error in Hrun by (left; congruence).
      injection Hrun as _ <-. now apply Hsame. }
  destruct (password c) as [| | | |pw|] eqn:Hp;
    try (rewrite handle_protocol_error in Hrun by (right; left; intros s; congruence);
         injection Hrun as _ <-; now apply Hsame).
  destruct msg_data as [| | | |serverData|];
    try (rewrite handle_protocol_error in Hrun by (right; right; intros s; congruence);
         injection Hrun as _ <-; now apply Hsame).
  destruct (handle_validation c pw serverData Hm Hp)
    as [(nonce & salt & iterationText & A) | (e0 & E & _)].
  2:{ rewrite E in Hrun. injection Hrun as _ <-. now apply Hsame. }
  destruct pw as [|p pw].
  - rewrite (handle_empty_password c serverData nonce salt iterationText Hm Hp A) in Hrun.
    injection Hrun as <- <-. unfold called. cbn [saslSession sent password subtle_calls].
    split; [reflexivity|]. split; [reflexivity|]. split; [assumption|].
    right. now repeat split.
  - destruct (handle_accepted c (p :: pw) serverData nonce salt iterationText Hm Hp
                ltac:(discriminate) A) as [calls E].
    rewrite E in Hrun. discriminate.
Qed.

Lemma throw_leaves_session_witness :
  saslSession ScramExamples.client0 = saslSession ScramExamples.client0
  /\ sent ScramExamples.client0 = sent ScramExamples.client0
  /\ password ScramExamples.client0 = password ScramExamples.client0
  /\ (ScramExamples.client0 = ScramExamples.client0
      \/ (IterationCountMissingOrInvalid = ProviderError DataError
          /\ password ScramExamples.client0 = VString []
          /\ subtle_calls ScramExamples.client0
             = subtle_calls ScramExamples.client0 ++ [CallImportKey []])).
Proof.
  apply (throw_leaves_session (VString ScramExamples.server_first_bad_count)
           ScramExamples.client0 ScramExamples.client0 IterationCountMissingOrInvalid).
  vm_compute. reflexivity.
Defined.



(** X4.  On a server-first message that is exactly
    ["r=" + nonce + ",s=" + salt + ",i=" + count], with a nonce, a salt and a
    count that pass the checks (the count below 2^53, which a number holds
    exactly), the method returns, and the proof it sends and the signature it
    keeps are computed over the message as it was received. *)
Theorem canonical_server_first_verbatim (c : Client)
  (pw nonce salt iterationText : jsstring) :
  message (saslSession c) = SASLInitialResponse ->
  password c = VString pw ->
  pw <> [] ->
  test_nonce nonce = true ->
  salt <> [] ->
  test_base64 salt = true ->
  test_iterations iterationText = true ->
  parseInt10 iterationText < 2 ^ 53 ->
  startsWith nonce (clientNonce (saslSession c)) = true ->
  length nonce <> length (clientNonce (saslSession c)) ->
  let serverData := lit "r=" ++ nonce ++ lit ",s=" ++ salt ++ lit ",i=" ++ iterationText in
  let saltedPassword :=
    Hi (utf8_encode pw) (buffer_from_base64 salt) (N.to_nat (parseInt10 iterationText)) in
  let am := authMessage (clientNonce (saslSession c)) serverData nonce in
  exists c',
    handleAuthSASLContinue (VString serverData) c = (inr tt, c')
    /\ sent c' = sent c ++ [clientFinal saltedPassword am nonce]
    /\ serverSignature (saslSession c') = Some (expected_serverSignature saltedPassword am).
Proof.
  intros Hm Hp Hpw Tn Hs Ts Ti _ Tp Tl serverData saltedPassword am.
  pose proof (accepted_serverFirst _ _ _ _ Tn Hs Ts Ti Tp Tl) as A.
  destruct (handle_accepted c pw _ nonce salt iterationText Hm Hp Hpw A) as [calls E].
  eexists. split; [exact E|]. split; reflexivity.
Qed.

Lemma canonical_server_first_verbatim_witness :
  let serverData :=
    lit "r=" ++ ScramExamples.nonce0 ++ lit ",s=" ++ ScramExamples.salt0 ++ lit ",i="
    ++ lit "4096" in
  let saltedPassword :=
    Hi (utf8_encode (lit "pencil")) (buffer_from_base64 ScramExamples.salt0)
       (N.to_nat (parseInt10 (lit "4096"))) in
  let am := authMessage (clientNonce (saslSession ScramExamples.client0)) serverData
              ScramExamples.nonce0 in
  exists c',
    handleAuthSASLContinue (VString serverData) ScramExamples.client0 = (inr tt, c')
    /\ sent c' = sent ScramExamples.client0 ++ [clientFinal saltedPassword am ScramExamples.nonce0]
    /\ serverSignature (saslSession c') = Some (expected_serverSignature saltedPassword am).
Proof.
  apply (canonical_server_first_verbatim ScramExamples.client0 (lit "pencil")
           ScramExamples.nonce0 ScramExamples.salt0 (lit "4096")).
  - reflexivity.
  - reflexivity.
  - discriminate.
  - vm_compute. reflexivity.
  - discriminate.
  - vm_compute. reflexivity.
  - vm_compute. reflexivity.
  - vm_compute. reflexivity.
  - vm_compute. reflexivity.
  - vm_compute. lia.
Defined.

(** X5.  The salt check of line 111 accepts the base64 text of every byte
    string that is not empty, and line 117 decodes the text to these
    bytes. *)
Theorem salt_check_accepts_encodings (b : bytes) (c : Client) :
  b <> [] ->
  required (Some (buffer_to_base64 b)) test_base64 SaltMissingOrNotBase64 c
  = (inr (buffer_to_base64 b), c)
  /\ buffer_from_base64 (buffer_to_base64 b) = b.
Proof.
  intros Hb. destruct (base64_round_trip b) as [Hdec Htest].
  split; [|exact Hdec].
  apply required_ok; [reflexivity | | exact Htest].
  intros E. apply Hb. rewrite <- Hdec, E. reflexivity.
Qed.

Lemma salt_check_accepts_encodings_witness :
  required (Some (buffer_to_base64 [x41; x25; xc2; x47; xe4]))
    test_base64 SaltMissingOrNotBase64 ScramExamples.client0
  = (inr (buffer_to_base64 [x41; x25; xc2; x47; xe4]), ScramExamples.client0)
  /\ buffer_from_base64 (buffer_to_base64 [x41; x25; xc2; x47; xe4])
     = [x41; x25; xc2; x47; xe4].
Proof.
  apply (salt_check_accepts_encodings [x41; x25; xc2; x47; xe4] ScramExamples.client0).
  discriminate.
Defined.

(** X6.  Past the guard, a message with an entry that is no [name=value]
    pair -- the empty message, a message that ends in a comma -- makes the
    method throw [Error('SASL: Invalid attribute pair entry')] and leave the
    client as it was, whatever the other entries are. *)
Theorem malformed_entry_throws (c : Client) (pw serverData : jsstring) :
  message (saslSession c) = SASLInitialResponse ->
  password c = VString pw ->
  Exists (fun entry => test_attr entry = false) (split (chr ",") serverData) ->
  handleAuthSASLContinue (VString serverData) c = (inl InvalidAttributePair, c)
  /\ error_message InvalidAttributePair = "SASL: Invalid attribute pair entry"%string.
Proof.
  intros Hm Hp Hex. split; [|reflexivity].
  unfold handleAuthSASLContinue, mbind, M_bind, get_client. rewrite Hm, Hp.
  rewrite parse_attrPairs_error; [reflexivity|].
  unfold well_formed. intros Hall. apply Exists_exists in Hex as (entry & Hin & Hf).
  rewrite Forall_forall in Hall. specialize (Hall entry Hin). congruence.
Qed.

Lemma malformed_entry_throws_witness :
  handleAuthSASLContinue (VString []) ScramExamples.client0
  = (inl InvalidAttributePair, ScramExamples.client0)
  /\ error_message InvalidAttributePair = "SASL: Invalid attribute pair entry"%string.
Proof.
  apply (malformed_entry_throws ScramExamples.client0 (lit "pencil") []).
  - reflexivity.
  - reflexivity.
  - vm_compute. constructor. reflexivity.
Defined.

(** X7.  With the empty string as password the method never answers: on
    every message it throws -- an error of the validation, the client as it
    was, or the provider's [DataError] after its one call of [importKey] --,
    nothing is sent and the session is as it was. *)
Theorem empty_password_never_answers (c : Client) (serverData : jsstring) :
  message (saslSession c) = SASLInitialResponse ->
  password c = VString [] ->
  exists e c',
    handleAuthSASLContinue (VString serverData) c = (inl e, c')
    /\ sent c' = sent c
    /\ saslSession c' = saslSession c
    /\ (validation_error e = true /\ c' = c
        \/ e = ProviderError DataError
           /\ subtle_calls c' = subtle_calls c ++ [CallImportKey []]).
Proof.
  intros Hm Hp.
  destruct (handle_validation c [] serverData Hm Hp)
    as [(nonce & salt & iterationText & A) | (e & E & V)].
  - exists (ProviderError DataError), (called [CallImportKey []] c).
    split; [now apply (handle_empty_password c serverData nonce salt iterationText)|].
    split; [reflexivity|]. split; [reflexivity|]. right. split; reflexivity.
  - exists e, c. split; [exact E|]. split; [reflexivity|]. split; [reflexivity|].
    left. now split.
Qed.

Lemma empty_password_never_answers_witness :
  exists e c',
    handleAuthSASLContinue (VString ScramExamples.server_first0)
      {| password := VString []; saslSession := ScramExamples.session0;
         sent := []; subtle_calls := [] |}
    = (inl e, c')
    /\ sent c' = []
    /\ saslSession c' = ScramExamples.session0
    /\ (validation_error e = true
        /\ c' = {| password := VString []; saslSession := ScramExamples.session0;
                   sent := []; subtle_calls := [] |}
        \/ e = ProviderError DataError /\ subtle_calls c' = [] ++ [CallImportKey []]).
Proof.
  apply (empty_password_never_answers
           {| password := VString []; saslSession := ScramExamples.session0;
              sent := []; subtle_calls := [] |} ScramExamples.server_first0);
    reflexivity.
Defined.

End StepFacts.

(** * Further facts about [connect] *)

Section ConnectFacts.
Import Connect.

Ltac settle_listeners :=
  unfold connect_pipelining, on, once_; cbv zeta;
  repeat match goal with
         | H : pipelineConnect _ = _ |- _ => rewrite H
         | H : pipelineTLS _ = _ |- _ => rewrite H
         | H : ssl _ = _ |- _ => rewrite H
         end;
  cbv beta iota delta [andb negb];
  unfold connectEvent; cbn [ssl register removeAllListeners with_events];
  repeat match goal with
         | H : ssl _ = _ |- _ => rewrite H
         end;
  repeat first [rewrite listeners_register | rewrite listeners_removeAllListeners];
  repeat case_decide; subst; try discriminate; try contradiction; try reflexivity.

(** X8.  [connect] adds and removes listeners of [connect], [sslconnect],
    [authenticationCleartextPassword] and [readyForQuery] only: the listeners
    of every other event -- those of the SASL and MD5 exchanges among them --
    are the ones [super.connect] has left. *)
Theorem connect_keeps_other_listeners (super_connect : Client -> Client) (this : Client)
  (ev : string) :
  ev <> "connect"%string -> ev <> "sslconnect"%string ->
  ev <> "authenticationCleartextPassword"%string -> ev <> "readyForQuery"%string ->
  listeners ev (connect super_connect this)
  = listeners ev (super_connect (connect_warnings this)).
Proof.
  intros H1 H2 H3 H4. unfold connect.
  set (s := super_connect (connect_warnings this)).
  destruct (pipelineConnect (neonConfig s)) eqn:Hc, (pipelineTLS (neonConfig s)) eqn:Ht,
    (ssl s) eqn:Hs; settle_listeners.
Qed.

Lemma connect_keeps_other_listeners_witness :
  listeners "authenticationSASLContinue" (connect pg_connect client_tls)
  = listeners "authenticationSASLContinue" (pg_connect (connect_warnings client_tls)).
Proof.
  apply (connect_keeps_other_listeners pg_connect client_tls "authenticationSASLContinue");
    discriminate.
Defined.



Lemma snoc_neq {X} (l : list X) (x : X) : l ++ [x] <> l.
Proof.
  intros E. apply (f_equal length) in E. rewrite length_app in E. simpl in E. lia.
Qed.

(** X10.  [connect] returns at line 56, with the client as
    [super.connect] has left it, exactly when no pipelining is in force:
    [pipelineConnect] is [false], and [pipelineTLS] is unset or the Postgres
    connection has no SSL.  In every other case it has added a listener. *)
Theorem connect_changes_listeners_iff_pipelining (super_connect : Client -> Client)
  (this : Client) :
  let s := super_connect (connect_warnings this) in
  connect super_connect this = s
  <-> pipelineConnect (neonConfig s) = Off
      /\ (pipelineTLS (neonConfig s) = false \/ ssl s = false).
Proof.
  intros s. unfold connect. fold s. split.
  - intros E.
    destruct (pipelineConnect (neonConfig s)) eqn:Hc.
    + destruct (listeners_pipelined s Hc) as (_ & _ & L).
      rewrite E in L. symmetry in L. now apply snoc_neq in L.
    + split; [reflexivity|].
      destruct (pipelineTLS (neonConfig s)) eqn:Ht; [|now left].
      destruct (ssl s) eqn:Hs; [|now right].
      assert (listeners "connect" (connect_pipelining s)
              = listeners "connect" s ++ [{| once := false; listener := FakeSslSupport |}])
        as L by settle_listeners.
      rewrite E in L. symmetry in L. now apply snoc_neq in L.
  - intros [Hc Ht]. unfold connect_pipelining. rewrite Hc.
    destruct Ht as [-> | ->]; [reflexivity|]. now rewrite andb_false_r.
Qed.

End ConnectFacts.

(** * The timing helpers *)

Section TimingFacts.
Import Util.
Context {W E A : Type} `{Clock W}.

Lemma fold_left_total (results : list (Z * A)) (acc : Z) :
  fold_left (fun memo tr => (memo + fst tr)%Z) results acc
  = (acc + foldr Z.add 0 (fst <$> results))%Z.
Proof.
  revert acc. induction results as [|tr results IH]; intros acc;
    cbn [fold_left fmap list_fmap foldr].
  - lia.
  - rewrite IH. lia.
Qed.

(** What holds before the loop and is kept by every turn holds of the
    results when the loop is over. *)
Lemma timedRepeats_loop_returns (I : nat -> list (Z * A) -> W -> Prop)
  (f : Async W E A) (timeListener : Z -> A -> Async W E unit) (k j : nat)
  (acc results : list (Z * A)) (w w' : W) :
  (forall i acc0 w0 tr w1,
     I i acc0 w0 -> turn f timeListener w0 tr w1 -> I (S i) (acc0 ++ [tr]) w1) ->
  I j acc w ->
  timedRepeats_loop k f timeListener acc w = (inr results, w') ->
  I (j + k)%nat results w'.
Proof.
  intros Hstep. revert j acc w.
  induction k as [|k IH]; intros j acc w HI Hrun.
  - injection Hrun as <- <-. now rewrite Nat.add_0_r.
  - cbn [timedRepeats_loop] in Hrun. unfold mbind, Async_bind in Hrun.
    destruct (timed f w) as [[e|tr] w1] eqn:Ef; [discriminate|].
    destruct (timeListener (fst tr) (snd tr) w1) as [[e|[]] w2] eqn:El; [discriminate|].
    replace (j + S k)%nat with (S j + k)%nat by lia.
    apply (IH (S j) (acc ++ [tr]) w2); [|exact Hrun].
    apply (Hstep j acc w tr w2 HI). exists w1. now split.
Qed.

(** A loop that rejects has made some turns, fewer than asked for, and then
    [f] or the listener has rejected. *)
Lemma timedRepeats_loop_rejects (I : nat -> list (Z * A) -> W -> Prop)
  (f : Async W E A) (timeListener : Z -> A -> Async W E unit) (k j : nat)
  (acc : list (Z * A)) (w w' : W) (e : E) :
  (forall i acc0 w0 tr w1,
     I i acc0 w0 -> turn f timeListener w0 tr w1 -> I (S i) (acc0 ++ [tr]) w1) ->
  I j acc w ->
  timedRepeats_loop k f timeListener acc w = (inl e, w') ->
  exists i acc0 w0,
    (j <= i < j + k)%nat /\ I i acc0 w0
    /\ (timed f w0 = (inl e, w')
        \/ exists tr w1, timed f w0 = (inr tr, w1)
                         /\ timeListener (fst tr) (snd tr) w1 = (inl e, w')).
Proof.
  intros Hstep. revert j acc w.
  induction k as [|k IH]; intros j acc w HI Hrun; [discriminate|].
  cbn [timedRepeats_loop] in Hrun. unfold mbind, Async_bind in Hrun.
  destruct (timed f w) as [[e0|tr] w1] eqn:Ef.
  { injection Hrun as -> ->. exists j, acc, w. split; [lia|]. split; [exact HI|]. now left. }
  destruct (timeListener (fst tr) (snd tr) w1) as [[e0|[]] w2] eqn:El.
  { injection Hrun as -> ->. exists j, acc, w. split; [lia|]. split; [exact HI|].
    right. now exists tr, w1. }
  destruct (IH (S j) (acc ++ [tr]) w2) as (i & acc0 & w0 & Hi & HI0 & Hlast);
    [|exact Hrun|].
  - apply (Hstep j acc w tr w2 HI). exists w1. now split.
  - exists i, acc0, w0. split; [lia|]. now split.
Qed.

(** Where [f] and the listener never reject, the loop returns. *)
Lemma timedRepeats_loop_total (f : Async W E A) (timeListener : Z -> A -> Async W E unit)
  (k : nat) (acc : list (Z * A)) (w : W) :
  (forall w0, exists a w1, f w0 = (inr a, w1)) ->
  (forall t a w0, exists w1, timeListener t a w0 = (inr tt, w1)) ->
  exists results w', timedRepeats_loop k f timeListener acc w = (inr results, w').
Proof.
  intros Hf Hl. revert acc w. induction k as [|k IH]; intros acc w.
  - now exists acc, w.
  - cbn [timedRepeats_loop]. unfold mbind, Async_bind, timed, mbind, Async_bind, now.
    destruct (Hf w) as (a & w1 & ->). cbn [mret Async_ret].
    unfold mret, Async_ret. cbn [fst snd].
    destruct (Hl (Date_now w1 - Date_now w)%Z a w1) as (w2 & ->).
    apply IH.
Qed.

(** The time of a turn is the difference of the clock around [f]. *)
Lemma timed_returns (f : Async W E A) (w w1 : W) (tr : Z * A) :
  timed f w = (inr tr, w1) ->
  f w = (inr (snd tr), w1) /\ fst tr = (Date_now w1 - Date_now w)%Z.
Proof.
  unfold timed, mbind, Async_bind, now, mret, Async_ret.
  destruct (f w) as [[e|a] w0]; [discriminate|].
  intros [= <- <-]. now split.
Qed.

Lemma timed_rejects (f : Async W E A) (w w1 : W) (e : E) :
  timed f w = (inl e, w1) -> f w = (inl e, w1).
Proof.
  unfold timed, mbind, Async_bind, now, mret, Async_ret.
  destruct (f w) as [[e0|a] w0]; [|discriminate].
  now intros [= <- <-].
Qed.

(** X11.  A call of [timedRepeats] that resolves gives [n] results, in the
    order of the runs, and as total the sum of their times.  It resolves
    where [f] and the listener never reject; for [n <= 0] it resolves at once
    with [[0, []]] and the world as it was: [f] has not run. *)
Theorem timedRepeats_results (n : Z) (f : Async W E A)
  (timeListener : Z -> A -> Async W E unit) (w : W) :
  (forall total results w',
     timedRepeats n f timeListener w = (inr (total, results), w') ->
     length results = Z.to_nat n
     /\ total = foldr Z.add 0%Z (fst <$> results))
  /\ ((forall w0, exists a w1, f w0 = (inr a, w1)) ->
      (forall t a w0, exists w1, timeListener t a w0 = (inr tt, w1)) ->
      exists total results w', timedRepeats n f timeListener w = (inr (total, results), w'))
  /\ ((n <= 0)%Z -> timedRepeats n f timeListener w = (inr (0%Z, []), w)).
Proof.
  split; [|split].
  - intros total results w' Hrun.
    unfold timedRepeats, mbind, Async_bind in Hrun.
    destruct (timedRepeats_loop (Z.to_nat n) f timeListener [] w) as [[e|rs] w1] eqn:El;
      [discriminate|].
    injection Hrun as <- <- <-.
    split; [|rewrite fold_left_total; lia].
    apply (timedRepeats_loop_returns (fun i acc _ => length acc = i) f timeListener
             (Z.to_nat n) 0 [] rs w w1); [|reflexivity|exact El].
    intros i acc0 w0 tr w2 Hi _. rewrite length_app. simpl. lia.
  - intros Hf Hl.
    destruct (timedRepeats_loop_total f timeListener (Z.to_nat n) [] w Hf Hl)
      as (results & w' & El).
    unfold timedRepeats, mbind, Async_bind. rewrite El.
    now eexists _, results, w'.
  - intros Hn. unfold timedRepeats. replace (Z.to_nat n) with 0%nat by lia. reflexivity.
Qed.

(** X12.  Where neither [f] nor the listener sets the clock back, no time
    of a run is negative, and the total is at most the time that has passed
    between the call of [timedRepeats] and its return. *)
Theorem timedRepeats_total_within_elapsed (n : Z) (f : Async W E A)
  (timeListener : Z -> A -> Async W E unit) (w w' : W) (total : Z) (results : list (Z * A)) :
  (forall w0, (Date_now w0 <= Date_now (snd (f w0)))%Z) ->
  (forall t a w0, (Date_now w0 <= Date_now (snd (timeListener t a w0)))%Z) ->
  timedRepeats n f timeListener w = (inr (total, results), w') ->
  Forall (fun tr => (0 <= fst tr)%Z) results
  /\ (0 <= total <= Date_now w' - Date_now w)%Z.
Proof.
  intros Hf Hl Hrun.
  unfold timedRepeats, mbind, Async_bind in Hrun.
  destruct (timedRepeats_loop (Z.to_nat n) f timeListener [] w) as [[e|rs] w1] eqn:El;
    [discriminate|].
  injection Hrun as <- <- <-.
  rewrite fold_left_total.
  pose proof (timedRepeats_loop_returns
                (fun _ acc w0 =>
                   Forall (fun tr => (0 <= fst tr)%Z) acc
                   /\ (0 <= foldr Z.add 0 (fst <$> acc) <= Date_now w0 - Date_now w)%Z)
                f timeListener (Z.to_nat n) 0 [] rs w w1) as Hinv.
  cbv beta in Hinv. destruct Hinv as [HF Hsum]; [| |exact El|].
  - intros _ acc0 w0 tr w2 [HF Hsum] (w3 & Ht & Hlis).
    apply timed_returns in Ht as [Ef Et].
    pose proof (Hf w0) as Hf0. rewrite Ef in Hf0. cbn [snd] in Hf0.
    pose proof (Hl (fst tr) (snd tr) w3) as Hl0. rewrite Hlis in Hl0. cbn [snd] in Hl0.
    split.
    + apply Forall_app. split; [exact HF|]. repeat constructor. lia.
    + rewrite fmap_app, foldr_app. cbn [fmap list_fmap foldr].
      assert (forall (l : list Z) (x : Z), foldr Z.add x l = (foldr Z.add 0 l + x)%Z) as Hshift.
      { intros l x. induction l as [|y l IHl]; simpl; lia. }
      rewrite Hshift. lia.
  - split; [constructor|]. simpl. lia.
  - split; [exact HF|]. lia.
Qed.

End TimingFacts.

Section ListenerFacts.
Import Util.
Context {Env E A : Type} `{Clock Env}.

(** X13.  The listener is told every result, with its time, in the order of
    the runs: when [timedRepeats] resolves, what the listener has been told
    is the results returned; when it rejects, the listener has been told the
    results of the runs before, fewer than [n]. *)
Theorem timeListener_hears_results (n : Z) (f : Async Env E A) (s : Env)
  (seen0 : list (Z * A)) :
  match timedRepeats n (with_notes f) note_listener (s, seen0) with
  | (inr (total, results), (s', seen)) => seen = seen0 ++ results
  | (inl e, (s', seen)) =>
      exists results, seen = seen0 ++ results /\ (length results < Z.to_nat n)%nat
  end.
Proof.
  set (I := fun (i : nat) (acc : list (Z * A)) (w : Env * list (Z * A)) =>
              snd w = seen0 ++ acc /\ length acc = i).
  assert (forall i acc0 w0 tr w1,
            I i acc0 w0 -> turn (with_notes f) note_listener w0 tr w1 -> I (S i) (acc0 ++ [tr]) w1)
    as Hstep.
  { intros i acc0 w0 tr w1 [Hseen Hlen] (w2 & Ht & Hl).
    apply timed_returns in Ht as [Ef _]. unfold with_notes in Ef.
    destruct (f (fst w0)) as [r s1]. injection Ef as -> <-.
    injection Hl as <-. unfold I. cbn [fst snd].
    rewrite Hseen, <- app_assoc, length_app. simpl. destruct tr. split; [reflexivity | lia]. }
  assert (I 0%nat [] (s, seen0)) as H0 by (split; [simpl; now rewrite app_nil_r | reflexivity]).
  unfold timedRepeats, mbind, Async_bind.
  destruct (timedRepeats_loop (Z.to_nat n) (with_notes f) note_listener [] (s, seen0))
    as [[e|rs] [s' seen]] eqn:El.
  - destruct (timedRepeats_loop_rejects I _ _ _ 0 _ _ _ _ Hstep H0 El)
      as (i & acc0 & w0 & Hi & [Hseen Hlen] & Hlast).
    destruct Hlast as [Ht | (tr & w2 & _ & Hl)]; [|discriminate Hl].
    apply timed_rejects in Ht. unfold with_notes in Ht.
    destruct (f (fst w0)) as [r s1]. injection Ht as _ _ <-.
    exists acc0. split; [exact Hseen | lia].
  - cbn [mret Async_ret]. unfold mret, Async_ret.
    now destruct (timedRepeats_loop_returns I _ _ _ 0 _ _ _ _ Hstep H0 El).
Qed.

End ListenerFacts.

Section QueryFacts.
Import Util.
Context {Env Rows Reason : Type} `{Clock Env}.

Lemma runQuery_returns (q : jsstring -> Env -> (Reason + Rows) * Env) (query : Query Rows)
  (w w' : World Env) (rows : Rows) :
  runQuery q query w = (inr rows, w') ->
  test query rows = true /\ log w' = log w ++ [CallQuery (sql query)].
Proof.
  unfold runQuery, mbind, Async_bind, awaited, reject, mret, Async_ret.
  destruct (q (sql query) (env w)) as [[r|rows0] s]; [discriminate|].
  destruct (test query rows0) eqn:Et; cbn [negb]; [|discriminate].
  intros [= <- <-]. now split.
Qed.

Lemma runQuery_rejects (q : jsstring -> Env -> (Reason + Rows) * Env) (query : Query Rows)
  (w w' : World Env) (e : Thrown Rows Reason) :
  runQuery q query w = (inl e, w') ->
  log w' = log w ++ [CallQuery (sql query)]
  /\ match e with
     | ResultFailsTest sql0 rows => sql0 = sql query /\ test query rows = false
     | Rejected _ => True
     end.
Proof.
  unfold runQuery, mbind, Async_bind, awaited, reject, mret, Async_ret.
  destruct (q (sql query) (env w)) as [[r|rows0] s].
  - intros [= <- <-]. now split.
  - destruct (test query rows0) eqn:Et; cbn [negb]; [discriminate|].
    intros [= <- <-]. now split.
Qed.

Lemma queried_turn (q : jsstring -> Env -> (Reason + Rows) * Env) (query : Query Rows)
  (w0 : World Env) (i : nat) (acc : list (Z * Rows)) (w : World Env) (tr : Z * Rows)
  (w1 : World Env) :
  queried query w0 i acc w ->
  turn (runQuery q query) timeListener_default w tr w1 ->
  queried query w0 (S i) (acc ++ [tr]) w1.
Proof.
  intros (Hlog & Hlen & Hall) (w2 & Ht & Hl).
  apply timed_returns in Ht as [Ef _]. apply runQuery_returns in Ef as [Et Elog].
  injection Hl as <-.
  split; [|split].
  - rewrite Elog, Hlog, <- app_assoc. f_equal.
    change [CallQuery (sql query)] with (replicate 1 (CallQuery (sql query))).
    rewrite <- replicate_add. f_equal. lia.
  - rewrite length_app. simpl. lia.
  - apply Forall_app. split; [exact Hall|]. now repeat constructor.
Qed.

(** The outcome of [timedRepeats] over [runQuery]: [n] results that pass the
    test after [n] queries, or a rejection after at most [n] queries, the
    last of which was refused or failed the test. *)
Lemma timedRepeats_runQuery (q : jsstring -> Env -> (Reason + Rows) * Env) (query : Query Rows)
  (n : Z) (w : World Env) :
  match timedRepeats n (runQuery q query) timeListener_default w with
  | (inr (total, results), w') =>
      queried query w (Z.to_nat n) results w'
  | (inl e, w') =>
      exists k, (1 <= k <= Z.to_nat n)%nat
                /\ log w' = log w ++ replicate k (CallQuery (sql query))
                /\ match e with
                   | ResultFailsTest sql0 rows => sql0 = sql query /\ test query rows = false
                   | Rejected _ => True
                   end
  end.
Proof.
  assert (queried query w 0 [] w) as H0
    by (split; [simpl; now rewrite app_nil_r | split; [reflexivity|constructor]]).
  unfold timedRepeats, mbind, Async_bind.
  destruct (timedRepeats_loop (Z.to_nat n) (runQuery q query) timeListener_default [] w)
    as [[e|rs] w1] eqn:El.
  - destruct (timedRepeats_loop_rejects (queried query w) _ _ _ 0 _ _ _ _
                (queried_turn q query w) H0 El)
      as (i & acc0 & w0 & Hi & (Hlog & _ & _) & Hlast).
    destruct Hlast as [Ht | (tr & w2 & _ & Hl)]; [|discriminate Hl].
    apply timed_rejects, runQuery_rejects in Ht as [Elog He].
    exists (S i). split; [lia|]. split; [|exact He].
    rewrite Elog, Hlog, <- app_assoc. f_equal.
    change [CallQuery (sql query)] with (replicate 1 (CallQuery (sql query))).
    rewrite <- replicate_add. f_equal. lia.
  - cbn [mret Async_ret]. unfold mret, Async_ret.
    exact (timedRepeats_loop_returns (queried query w) _ _ (Z.to_nat n) 0 [] rs w w1
             (queried_turn q query w) H0 El).
Qed.

(** X14.  A call of [clientRunQuery] that resolves has connected once, then
    made [n] queries of the query's SQL, then called [client.end()] and
    handed it to [ctx.waitUntil]; its [n] results all pass the query's
    test. *)
Theorem clientRunQuery_returns (n : Z) (client : Client Env Rows Reason)
  (ctx : ExecutionContext Env) (query : Query Rows) (w w' : World Env)
  (total : Z) (results : list (Z * Rows)) :
  clientRunQuery n client ctx query w = (inr (total, results), w') ->
  log w' = log w ++ [CallConnect] ++ replicate (Z.to_nat n) (CallQuery (sql query))
             ++ [CallEnd; CallWaitUntil]
  /\ length results = Z.to_nat n
  /\ Forall (fun tr => test query (snd tr) = true) results.
Proof.
  unfold clientRunQuery, mbind, Async_bind.
  unfold awaited at 1.
  destruct (client_connect client (env w)) as [[r|[]] s0]; [discriminate|].
  pose proof (timedRepeats_runQuery (client_query client) query n
                {| env := s0; log := log w ++ [CallConnect] |}) as Hq.
  destruct (timedRepeats n _ _ _) as [[e|[total0 results0]] w1]; [discriminate|].
  unfold started, mret, Async_ret. intros [= <- <- <-]. cbn [log].
  destruct Hq as (Hlog & Hlen & Hall). cbn [log] in Hlog.
  split; [|now split].
  rewrite Hlog, <- !app_assoc. reflexivity.
Qed.

(** X15.  A call of [clientRunQuery] that rejects has connected and made at
    most [n] queries, and nothing after: [client.end()] is not called.  When
    the error is the one of [runQuery], it names the query's SQL and rows
    that fail the test, and at least one query was made. *)
Theorem clientRunQuery_rejects (n : Z) (client : Client Env Rows Reason)
  (ctx : ExecutionContext Env) (query : Query Rows) (w w' : World Env)
  (e : Thrown Rows Reason) :
  clientRunQuery n client ctx query w = (inl e, w') ->
  exists k, (k <= Z.to_nat n)%nat
    /\ log w' = log w ++ [CallConnect] ++ replicate k (CallQuery (sql query))
    /\ match e with
       | ResultFailsTest sql0 rows =>
           sql0 = sql query /\ test query rows = false /\ (1 <= k)%nat
       | Rejected _ => True
       end.
Proof.
  unfold clientRunQuery, mbind, Async_bind.
  unfold awaited at 1.
  destruct (client_connect client (env w)) as [[r|[]] s0].
  { intros [= <- <-]. exists 0%nat. split; [lia|]. cbn [log replicate].
    split; [reflexivity | exact I]. }
  pose proof (timedRepeats_runQuery (client_query client) query n
                {| env := s0; log := log w ++ [CallConnect] |}) as Hq.
  destruct (timedRepeats n _ _ _) as [[e0|[total0 results0]] w1]; [|discriminate].
  intros [= <- <-].
  destruct Hq as (k & Hk & Hlog & He). cbn [log] in Hlog.
  exists k. split; [lia|]. split; [now rewrite Hlog, <- app_assoc|].
  destruct e0 as [sql0 rows|r]; [|exact I].
  destruct He as [-> Ht]. repeat split; [exact Ht | lia].
Qed.

(** X16.  [poolRunQuery] makes a pool of the URL and never connects a
    client itself.  When it resolves it has made [n] queries, then called
    [pool.end()] and handed it to [ctx.waitUntil], and its [n] results pass
    the test; when it rejects it has made between one and [n] queries and
    has not ended the pool. *)
Theorem poolRunQuery_calls (new_Pool : jsstring -> Pool Env Rows Reason) (n : Z)
  (dbUrl : jsstring) (ctx : ExecutionContext Env) (query : Query Rows) (w : World Env) :
  match poolRunQuery new_Pool n dbUrl ctx query w with
  | (inr (total, results), w') =>
      log w' = log w ++ [CallNewPool dbUrl] ++ replicate (Z.to_nat n) (CallQuery (sql query))
                 ++ [CallEnd; CallWaitUntil]
      /\ length results = Z.to_nat n
      /\ Forall (fun tr => test query (snd tr) = true) results
  | (inl e, w') =>
      exists k, (1 <= k <= Z.to_nat n)%nat
        /\ log w' = log w ++ [CallNewPool dbUrl] ++ replicate k (CallQuery (sql query))
  end.
Proof.
  unfold poolRunQuery, mbind, Async_bind.
  unfold started at 1. cbn [mret Async_ret]. unfold mret at 1, Async_ret at 1.
  cbv beta iota.
  pose proof (timedRepeats_runQuery (pool_query (new_Pool dbUrl)) query n
                {| env := id (env w); log := log w ++ [CallNewPool dbUrl] |}) as Hq.
  destruct (timedRepeats n _ _ _) as [[e0|[total0 results0]] w1].
  - destruct Hq as (k & Hk & Hlog & _). cbn [log] in Hlog.
    exists k. split; [exact Hk|]. now rewrite Hlog, <- app_assoc.
  - unfold started, mret, Async_ret. cbn [log].
    destruct Hq as (Hlog & Hlen & Hall). cbn [log] in Hlog.
    split; [|now split]. rewrite Hlog, <- !app_assoc. reflexivity.
Qed.

End QueryFacts.

Section QueryExamples.
Import Util.

Lemma db_query_clock (query : Query (list N)) (w0 : World Db) :
  (Date_now w0 <= Date_now (snd (runQuery db_query query w0)))%Z.
Proof.
  destruct w0 as [[clk answered] lg].
  unfold runQuery, mbind, Async_bind, awaited, reject, mret, Async_ret, db_query,
    Date_now, World_clock, Db_clock.
  cbn [env log db_clock db_answered].
  destruct (answered <? 3); [destruct (negb _)|]; cbn [snd env db_clock];
    unfold Date_now, Db_clock; cbn [db_clock]; lia.
Qed.

Lemma timedRepeats_results_witness :
  (length [(7%Z, [0]); (7%Z, [1]); (7%Z, [2])] = Z.to_nat 3
   /\ 21%Z = foldr Z.add 0%Z (fst <$> [(7%Z, [0]); (7%Z, [1]); (7%Z, [2])]))
  /\ timedRepeats (-1) (runQuery db_query query_any) timeListener_default db0
     = (inr (0%Z, []), db0).
Proof.
  split.
  - apply (proj1 (timedRepeats_results 3 (runQuery db_query query_any)
                    timeListener_default db0)
             21%Z [(7%Z, [0]); (7%Z, [1]); (7%Z, [2])]
             (snd (timedRepeats 3 (runQuery db_query query_any) timeListener_default db0))).
    vm_compute. reflexivity.
  - apply (proj2 (proj2 (timedRepeats_results (-1) (runQuery db_query query_any)
                           timeListener_default db0))).
    lia.
Defined.

Lemma timedRepeats_total_within_elapsed_witness :
  let w' := snd (timedRepeats 3 (runQuery db_query query_any) timeListener_default db0) in
  Forall (fun tr => (0 <= fst tr)%Z) [(7%Z, [0]); (7%Z, [1]); (7%Z, [2])]
  /\ (0 <= 21 <= Date_now w' - Date_now db0)%Z.
Proof.
  apply (timedRepeats_total_within_elapsed 3 (runQuery db_query query_any)
           timeListener_default db0 _ 21%Z [(7%Z, [0]); (7%Z, [1]); (7%Z, [2])]).
  - apply db_query_clock.
  - intros t a w0. simpl. lia.
  - vm_compute. reflexivity.
Defined.

Lemma clientRunQuery_returns_witness :
  let w' := snd (clientRunQuery 3 db_client db_ctx query_any db0) in
  log w' = log db0 ++ [CallConnect] ++ replicate (Z.to_nat 3) (CallQuery (sql query_any))
             ++ [CallEnd; CallWaitUntil]
  /\ length [(7%Z, [0]); (7%Z, [1]); (7%Z, [2])] = Z.to_nat 3
  /\ Forall (fun tr => test query_any (snd tr) = true) [(7%Z, [0]); (7%Z, [1]); (7%Z, [2])].
Proof.
  apply (clientRunQuery_returns 3 db_client db_ctx query_any db0 _ 21%Z).
  vm_compute. reflexivity.
Defined.

Lemma clientRunQuery_rejects_witness :
  let w' := snd (clientRunQuery 5 db_client db_ctx query_small db0) in
  exists k, (k <= Z.to_nat 5)%nat
    /\ log w' = log db0 ++ [CallConnect] ++ replicate k (CallQuery (sql query_small))
    /\ (lit "SELECT 1" = sql query_small /\ test query_small [2] = false /\ (1 <= k)%nat).
Proof.
  apply (clientRunQuery_rejects 5 db_client db_ctx query_small db0 _
           (ResultFailsTest (lit "SELECT 1") [2])).
  vm_compute. reflexivity.
Defined.

Lemma poolRunQuery_calls_witness :
  let w' := snd (poolRunQuery db_pool 2 (lit "postgres://db.example/main") db_ctx
                   query_any db0) in
  log w'
  = log db0 ++ [CallNewPool (lit "postgres://db.example/main")]
    ++ replicate (Z.to_nat 2) (CallQuery (sql query_any)) ++ [CallEnd; CallWaitUntil]
  /\ length [(7%Z, [0]); (7%Z, [1])] = Z.to_nat 2
  /\ Forall (fun tr => test query_any (snd tr) = true) [(7%Z, [0]); (7%Z, [1])].
Proof.
  exact (poolRunQuery_calls db_pool 2 (lit "postgres://db.example/main") db_ctx
           query_any db0).
Defined.

End QueryExamples.
